(** * Credit-spread analyzer: Black-Scholes calculator and delta analysis

    A shallow embedding of [tastytrade_data/find_tendies.py]: the class
    [BlackScholesCalculator] and the function [find_deals_with_delta_analysis].

    Numbers.  Python floats are modelled by the real numbers of the Standard
    Library: every arithmetic operation is exact, [np.log], [np.exp] and
    [np.sqrt] are [ln], [exp] and [sqrt], and rounding, overflow and NaN are
    outside the model.  Division is the total division of the reals; the
    results about the calculator are stated for a positive spot and strike,
    where Python's [S / K] and [np.log] are defined.  [days_until_expires] is
    an integer in the data (it is printed with the [d] format) and is kept in
    [Z].

    Dictionaries.  The JSON objects the function iterates over with
    [.items()] are association lists in iteration order; the two lookup
    dictionaries it builds are [gmap]s keyed by the contract name.

    Effects.  The loop threads its three result lists and the delta
    statistics through an explicit state; the clock read by
    [datetime.now()] is a parameter of the run; the one exception the
    function can raise on well-typed datasets ([min] of an empty list) is a
    [Raise] outcome. *)

From stdpp Require Import base decidable list strings gmap sorting pretty.
From Stdlib Require Import Reals Lra.

Open Scope R_scope.

#[global] Instance Rle_rel_dec : RelDecision Rle := Rle_dec.
#[global] Instance Rlt_rel_dec : RelDecision Rlt := Rlt_dec.
#[global] Instance Rgt_rel_dec : RelDecision Rgt := Rgt_dec.

(** * The standard normal distribution ([scipy.stats.norm])

    [norm.pdf] is the density [exp (- x^2 / 2) / sqrt (2 PI)].  [norm.cdf] is
    its cumulative function: one half plus the integral of the density from
    [0] to [x].  The integral is built from the Riemann integral of the
    kernel [exp (- t^2 / 2)]; it is normalised by the mass of the kernel over
    the half line, obtained as the least upper bound of its partial
    integrals (the value [sqrt (2 PI) / 2] of that bound is not needed
    below), and continued to negative arguments by the symmetry
    [cdf (- x) = 1 - cdf x] of the even density. *)

Definition gauss_kernel (t : R) : R := exp (- (t * t) / 2).

Lemma gauss_kernel_continuity : continuity gauss_kernel.
Proof.
  unfold gauss_kernel.
  change (continuity (comp exp (fun t => - (t * t) / 2))).
  apply continuity_comp.
  - change (continuity ((- (id * id)) * fct_cte (/ 2))%F).
    reg.
  - apply derivable_continuous, derivable_exp.
Qed.

Lemma gauss_kernel_integrable (a b : R) : Riemann_integrable gauss_kernel a b.
Proof.
  destruct (Rle_dec a b) as [Hab | Hab].
  - apply continuity_implies_RiemannInt; [exact Hab |].
    intros x _. apply gauss_kernel_continuity.
  - apply RiemannInt_P1, continuity_implies_RiemannInt; [lra |].
    intros x _. apply gauss_kernel_continuity.
Qed.

Definition gauss_mass (x : R) : R := RiemannInt (gauss_kernel_integrable 0 x).

Lemma gauss_kernel_pos t : 0 < gauss_kernel t.
Proof. apply exp_pos. Qed.

(** the kernel lies under the exponential [exp (1/2 - t)] *)
Lemma gauss_kernel_le_exp t : gauss_kernel t <= exp (1 / 2 - t).
Proof.
  unfold gauss_kernel.
  destruct (Req_dec t 1) as [-> | Hne].
  - right. f_equal. lra.
  - left. apply exp_increasing. nra.
Qed.

(** integral of the kernel over [a, b] *)
Lemma gauss_integral_ge (c a b : R) (pr : Riemann_integrable gauss_kernel a b) :
  a <= b -> (forall t, a < t < b -> c <= gauss_kernel t) ->
  c * (b - a) <= RiemannInt pr.
Proof.
  intros Hab Hc.
  assert (prc : Riemann_integrable (fct_cte c) a b).
  { apply continuity_implies_RiemannInt; [exact Hab |].
    intros x _. apply continuity_const. intros u v. reflexivity. }
  rewrite <- (RiemannInt_P15 prc).
  apply RiemannInt_P19; [exact Hab |].
  intros t Ht. unfold fct_cte. apply Hc, Ht.
Qed.

Lemma gauss_mass_split (x y : R) (pr : Riemann_integrable gauss_kernel x y) :
  gauss_mass y = gauss_mass x + RiemannInt pr.
Proof.
  unfold gauss_mass. symmetry. apply RiemannInt_P26.
Qed.

Lemma gauss_mass_0 : gauss_mass 0 = 0.
Proof. apply RiemannInt_P9. Qed.

Lemma gauss_mass_mono (x y : R) : x <= y -> gauss_mass x <= gauss_mass y.
Proof.
  intros Hxy.
  rewrite (gauss_mass_split x y (gauss_kernel_integrable x y)).
  pose proof (gauss_integral_ge 0 x y (gauss_kernel_integrable x y) Hxy) as H.
  assert (0 * (y - x) <= RiemannInt (gauss_kernel_integrable x y)).
  { apply H. intros t _. left. apply gauss_kernel_pos. }
  lra.
Qed.

(** an antiderivative of the dominating exponential *)
Definition exp_tail (t : R) : R := - exp (1 / 2 - t).

Lemma exp_tail_derivable_pt_lim t : derivable_pt_lim exp_tail t (exp (1 / 2 - t)).
Proof.
  replace (exp (1 / 2 - t)) with (- (exp (1 / 2 - t) * (0 - 1))) by lra.
  change exp_tail with (- comp exp (fct_cte (1 / 2) - id))%F.
  apply derivable_pt_lim_opp.
  apply derivable_pt_lim_comp.
  - apply derivable_pt_lim_minus.
    + apply derivable_pt_lim_const.
    + apply derivable_pt_lim_id.
  - apply derivable_pt_lim_exp.
Qed.

Definition exp_tail_derivable : derivable exp_tail :=
  fun t => exist _ (exp (1 / 2 - t)) (exp_tail_derivable_pt_lim t).

Lemma exp_tail_derive_continuity : continuity (derive exp_tail exp_tail_derivable).
Proof.
  change (continuity (comp exp (fct_cte (1 / 2) - id)%F)).
  apply continuity_comp.
  - reg.
  - apply derivable_continuous, derivable_exp.
Qed.

Definition exp_tail_C1 : C1_fun :=
  mkC1 exp_tail_derive_continuity.

(** beyond [y] the kernel adds at most [exp (1/2 - y)] *)
Lemma gauss_mass_tail (y x : R) :
  0 <= y -> gauss_mass x <= gauss_mass y + exp (1 / 2 - y).
Proof.
  intros Hy. pose proof (exp_pos (1 / 2 - y)) as Hpos.
  destruct (Rle_dec y x) as [Hx | Hx].
  - rewrite (gauss_mass_split y x (gauss_kernel_integrable y x)).
    pose (pr := RiemannInt_P32 exp_tail_C1 y x).
    assert (RiemannInt (gauss_kernel_integrable y x) <= RiemannInt pr) as Hle.
    { apply RiemannInt_P19; [exact Hx |].
      intros t _. apply gauss_kernel_le_exp. }
    rewrite (FTC_Riemann exp_tail_C1 pr) in Hle. cbn in Hle. unfold exp_tail in Hle.
    pose proof (exp_pos (1 / 2 - x)). lra.
  - pose proof (gauss_mass_mono x y ltac:(lra)). lra.
Qed.

Lemma gauss_mass_le_sqrt_e (x : R) : gauss_mass x <= exp (1 / 2).
Proof.
  pose proof (gauss_mass_tail 0 x ltac:(lra)) as H.
  rewrite gauss_mass_0 in H. replace (1 / 2 - 0) with (1 / 2) in H by lra. lra.
Qed.

Definition is_gauss_mass (y : R) : Prop := exists x, y = gauss_mass x.

Lemma gauss_mass_bound : bound is_gauss_mass.
Proof.
  exists (exp (1 / 2)). intros y [x ->]. apply gauss_mass_le_sqrt_e.
Qed.

Lemma gauss_mass_inhabited : exists y, is_gauss_mass y.
Proof. exists (gauss_mass 0), 0. reflexivity. Qed.

(** the mass of the kernel over the half line [0, +oo) *)
Definition gauss_half_mass : R :=
  proj1_sig (completeness is_gauss_mass gauss_mass_bound gauss_mass_inhabited).

Definition norm_cdf (x : R) : R :=
  if Rle_dec 0 x
  then 1 / 2 + gauss_mass x / (2 * gauss_half_mass)
  else 1 / 2 - gauss_mass (- x) / (2 * gauss_half_mass).

Definition norm_pdf (x : R) : R := exp (- (x * x) / 2) / sqrt (2 * PI).

(** Python's [max(a, b)] on two numbers: the first one, unless the second is
    strictly greater. *)
Definition py_max (a b : R) : R := if decide (b > a) then b else a.

(** * [class BlackScholesCalculator] *)

Record BlackScholesCalculator : Type := { risk_free_rate : R }.

(** [BlackScholesCalculator()]: the constructor's default rate *)
Definition default_calculator : BlackScholesCalculator :=
  {| risk_free_rate := 0.05 |}.

Record Greeks : Type := { delta : R; theta : R; gamma : R; vega : R }.

Definition zero_greeks : Greeks :=
  {| delta := 0; theta := 0; gamma := 0; vega := 0 |}.

(** what [probability_otm] returns when [T <= 0] or [sigma <= 0] *)
Definition moneyness_otm (S K : R) (option_type : string) : R :=
  if decide ((option_type = "call" ∧ S < K) ∨ (option_type = "put" ∧ S > K))
  then 1 else 0.

Section Calculator.
Context (self : BlackScholesCalculator).

Definition black_scholes_call (S K T r sigma : R) : R :=
  if decide (T <= 0) then py_max (S - K) 0
  else if decide (sigma <= 0) then py_max (S - K) 0
  else
    let d1 := (ln (S / K) + (r + 0.5 * sigma ^ 2) * T) / (sigma * sqrt T) in
    let d2 := d1 - sigma * sqrt T in
    let call_price := S * norm_cdf d1 - K * exp (- r * T) * norm_cdf d2 in
    py_max call_price 0.

Definition probability_otm (S K T sigma : R) (option_type : string) : R :=
  if decide (T <= 0) then moneyness_otm S K option_type
  else if decide (sigma <= 0) then moneyness_otm S K option_type
  else
    let d2 := (ln (S / K) + (risk_free_rate self - 0.5 * sigma ^ 2) * T)
              / (sigma * sqrt T) in
    if decide (option_type = "call") then norm_cdf (- d2) else norm_cdf d2.

Definition calculate_greeks (S K T r sigma : R) (option_type : string)
  : Greeks :=
  if decide (T <= 0) then zero_greeks
  else if decide (sigma <= 0) then zero_greeks
  else
    let d1 := (ln (S / K) + (r + 0.5 * sigma ^ 2) * T) / (sigma * sqrt T) in
    let d2 := d1 - sigma * sqrt T in
    let gamma := norm_pdf d1 / (S * sigma * sqrt T) in
    let vega := S * norm_pdf d1 * sqrt T / 100 in
    if decide (option_type = "call") then
      {| delta := norm_cdf d1;
         theta := (- S * norm_pdf d1 * sigma / (2 * sqrt T)
                   - r * K * exp (- r * T) * norm_cdf d2) / 365;
         gamma := gamma; vega := vega |}
    else
      {| delta := - norm_cdf (- d1);
         theta := (- S * norm_pdf d1 * sigma / (2 * sqrt T)
                   + r * K * exp (- r * T) * norm_cdf (- d2)) / 365;
         gamma := gamma; vega := vega |}.
End Calculator.

(** * The datasets read by [find_deals_with_delta_analysis] *)

(** an entry of [exp_data['contracts']] *)
Record Contract : Type := {
  contract_type : string;
  strike_price : R;
  streamer_symbol : string;
  days_until_expires : Z }.

(** an entry of [risk_data['risk_by_company'][company]] *)
Record GreekRow : Type := {
  greek_contract_name : string;
  implied_volatility : R }.

(** an entry of [price_data['prices_by_company'][company]] *)
Record PriceRow : Type := {
  price_contract_name : string;
  what_buyers_pay : R;
  what_sellers_want : R }.

Record ExpirationData : Type := { contracts : list Contract }.

Record CompanyOptions : Type := {
  current_stock_price : R;
  expiration_dates : list (string * ExpirationData) }.

Record OptionsData : Type := {
  options_by_company : list (string * CompanyOptions) }.

Record RiskData : Type := { risk_by_company : list (string * list GreekRow) }.

Record PriceData : Type := {
  prices_by_company : list (string * list PriceRow) }.

(** * The records the function builds *)

(** The arguments of the format string of the [explanation] field; the
    rendering of the numbers as text is not modelled. *)
Record Explanation : Type := {
  collect : R;
  pop_percent : R;
  stays_below_company : string;
  stays_below_strike : R }.

Record Spread : Type := {
  company : string;
  short_strike : R;
  long_strike : R;
  days_to_expiration : Z;
  credit_collected : R;
  max_risk : R;
  roi_percent : R;
  probability_of_profit : R;
  spread_stock_price : R;   (* the key ['current_stock_price'] *)
  avg_implied_volatility : R;
  spread_delta : R;
  spread_theta : R;
  explanation : Explanation;
  delta_interpretation : string }.

Record DeltaStats : Type := {
  deltas_seen : list R;
  negative_deltas : nat;
  neutral_deltas : nat;
  positive_deltas : nat }.

(** the variables the loop updates *)
Record Scan : Type := {
  all_spreads_no_delta : list Spread;
  all_spreads_loose_delta : list Spread;
  all_spreads_strict_delta : list Spread;
  delta_stats : DeltaStats }.

Record DeltaAnalysis : Type := {
  no_delta_filter : nat;
  loose_delta_filter : nat;
  strict_delta_filter : nat }.

(** the document written to [step5_delta_analysis.json] and returned *)
Record Result : Type := {
  step : Z;
  filters_used : string;
  total_opportunities : nat;
  delta_analysis : DeltaAnalysis;
  best_deals : list Spread;
  timestamp : string }.

Inductive PyError : Type := ValueError.

Inductive Outcome (A : Type) : Type :=
  | Return (a : A)
  | Raise (e : PyError).
Arguments Return {A} a.
Arguments Raise {A} e.

(** * [list.sort]

    Python's sort is stable, with and without [reverse=True]; on a total
    preorder its result is the one computed by stable insertion.  [before x y]
    says that [x] may stand before [y]. *)

Section StableSort.
Context {A : Type} (before : A → A → Prop) `{!RelDecision before}.

Fixpoint insert_sorted (x : A) (l : list A) : list A :=
  match l with
  | [] => [x]
  | y :: l' => if decide (before x y) then x :: l else y :: insert_sorted x l'
  end.

Definition stable_sort (l : list A) : list A := foldr insert_sorted [] l.
End StableSort.

(** [key=lambda x: x['strike_price']] *)
Definition by_strike (x y : Contract) : Prop :=
  strike_price x <= strike_price y.

(** [key=lambda x: x['probability_of_profit'], reverse=True] *)
Definition by_probability_desc (x y : Spread) : Prop :=
  probability_of_profit y <= probability_of_profit x.

#[global] Instance by_strike_dec : RelDecision by_strike :=
  λ x y, decide (strike_price x <= strike_price y).

#[global] Instance by_probability_desc_dec : RelDecision by_probability_desc :=
  λ x y, decide (probability_of_profit y <= probability_of_profit x).

(** * The spread constructor (lines 126-137) *)

(** [calls_above_price], after its [sort] *)
Definition calls_above_price (current_stock_price : R)
    (contracts : list Contract) : list Contract :=
  let calls := filter (λ c, contract_type c = "CALL") contracts in
  let above := filter (λ c, strike_price c > current_stock_price) calls in
  stable_sort by_strike above.

(** the pairs [(l[i], l[i + 1])] for [i in range(len(l) - 1)] *)
Fixpoint adjacent_pairs {A : Type} (l : list A) : list (A * A) :=
  match l with
  | [] => []
  | x :: l' =>
      match l' with
      | [] => []
      | y :: _ => (x, y) :: adjacent_pairs l'
      end
  end.

(** the width test that opens the loop body: a pair wider than 5 is passed
    over *)
Definition within_width (p : Contract * Contract) : Prop :=
  ¬ (strike_price p.2 - strike_price p.1 > 5).

#[global] Instance within_width_dec p : Decision (within_width p) :=
  not_dec (decide (strike_price p.2 - strike_price p.1 > 5)).

(** the (short call, long call) pairs that reach the rest of the loop body *)
Definition spread_pairs (current_stock_price : R) (contracts : list Contract)
    : list (Contract * Contract) :=
  filter within_width
    (adjacent_pairs (calls_above_price current_stock_price contracts)).

(** * The lookups (lines 99-108) *)

Definition index_greeks (lookup : gmap string GreekRow)
    (greeks_list : list GreekRow) : gmap string GreekRow :=
  foldl (λ m greek, <[greek_contract_name greek := greek]> m) lookup greeks_list.

Definition make_greek_lookup (risk_data : RiskData) : gmap string GreekRow :=
  foldl (λ m entry, index_greeks m entry.2) ∅ (risk_by_company risk_data).

Definition index_prices (lookup : gmap string PriceRow)
    (prices_list : list PriceRow) : gmap string PriceRow :=
  foldl (λ m price, <[price_contract_name price := price]> m) lookup prices_list.

Definition make_price_lookup (price_data : PriceData) : gmap string PriceRow :=
  foldl (λ m entry, index_prices m entry.2) ∅ (prices_by_company price_data).

(** * The loop body (lines 139-238) *)

(** What one pass of the loop body does: leave through one of the [continue]s
    that precede the pricing, leave through the [continue] of the basic
    filters after the delta statistics were updated, or append a spread. *)
Inductive Verdict : Type :=
  | Skipped
  | Rejected (spread_delta : R)
  | Accepted (spread : Spread).

Definition interpret_delta (spread_delta : R) : string :=
  if decide (Rabs spread_delta <= 0.2) then "Neutral"
  else if decide (spread_delta > 0.2) then "Bullish" else "Bearish".

Section LoopBody.
Context (bs_calc : BlackScholesCalculator).
Context (greek_lookup : gmap string GreekRow).
Context (price_lookup : gmap string PriceRow).

Definition examine_pair (company : string) (current_stock_price : R)
    (short_call long_call : Contract) : Verdict :=
  let short_symbol := streamer_symbol short_call in
  let long_symbol := streamer_symbol long_call in
  match price_lookup !! short_symbol, price_lookup !! long_symbol,
        greek_lookup !! short_symbol, greek_lookup !! long_symbol with
  | Some short_price_data, Some long_price_data,
    Some short_greek_data, Some long_greek_data =>
      let short_iv := implied_volatility short_greek_data in
      let long_iv := implied_volatility long_greek_data in
      let avg_iv := (short_iv + long_iv) / 2 in
      let days_to_exp := days_until_expires short_call in
      let time_to_exp := IZR days_to_exp / 365 in
      if decide (time_to_exp <= 0) then Skipped else
      let short_bid := what_buyers_pay short_price_data in
      let long_ask := what_sellers_want long_price_data in
      if decide (short_bid <= 0 ∨ long_ask <= 0) then Skipped else
      let market_credit := short_bid - long_ask in
      if decide (market_credit <= 0) then Skipped else
      let prob_profit_bs :=
        probability_otm bs_calc current_stock_price
          (strike_price short_call) time_to_exp avg_iv "call" * 100 in
      let strike_width := strike_price long_call - strike_price short_call in
      let max_risk := strike_width - market_credit in
      let roi_percent :=
        if decide (max_risk > 0) then market_credit / max_risk * 100 else 0 in
      let short_greeks :=
        calculate_greeks current_stock_price (strike_price short_call)
          time_to_exp (risk_free_rate bs_calc) short_iv "call" in
      let long_greeks :=
        calculate_greeks current_stock_price (strike_price long_call)
          time_to_exp (risk_free_rate bs_calc) long_iv "call" in
      let spread_delta := delta short_greeks - delta long_greeks in
      let spread_theta := theta short_greeks - theta long_greeks in
      if decide (roi_percent <= 10 ∨ prob_profit_bs <= 66)
      then Rejected spread_delta
      else Accepted
        {| company := company;
           short_strike := strike_price short_call;
           long_strike := strike_price long_call;
           days_to_expiration := days_to_exp;
           credit_collected := market_credit;
           max_risk := max_risk;
           roi_percent := roi_percent;
           probability_of_profit := prob_profit_bs;
           spread_stock_price := current_stock_price;
           avg_implied_volatility := avg_iv;
           spread_delta := spread_delta;
           spread_theta := spread_theta;
           explanation :=
             {| collect := market_credit;
                pop_percent := prob_profit_bs;
                stays_below_company := company;
                stays_below_strike := strike_price short_call |};
           delta_interpretation := interpret_delta spread_delta |}
  | _, _, _, _ => Skipped
  end.

(** lines 198-205 *)
Definition track_delta (spread_delta : R) (stats : DeltaStats) : DeltaStats :=
  let seen := deltas_seen stats ++ [spread_delta] in
  if decide (spread_delta < -0.1) then
    {| deltas_seen := seen;
       negative_deltas := negative_deltas stats + 1;
       neutral_deltas := neutral_deltas stats;
       positive_deltas := positive_deltas stats |}
  else if decide (-0.2 <= spread_delta ∧ spread_delta <= 0.2) then
    {| deltas_seen := seen;
       negative_deltas := negative_deltas stats;
       neutral_deltas := neutral_deltas stats + 1;
       positive_deltas := positive_deltas stats |}
  else
    {| deltas_seen := seen;
       negative_deltas := negative_deltas stats;
       neutral_deltas := neutral_deltas stats;
       positive_deltas := positive_deltas stats + 1 |}.

(** the updates of the loop variables *)
Definition record_verdict (st : Scan) (v : Verdict) : Scan :=
  match v with
  | Skipped => st
  | Rejected spread_delta =>
      {| all_spreads_no_delta := all_spreads_no_delta st;
         all_spreads_loose_delta := all_spreads_loose_delta st;
         all_spreads_strict_delta := all_spreads_strict_delta st;
         delta_stats := track_delta spread_delta (delta_stats st) |}
  | Accepted spread =>
      let d := spread_delta spread in
      {| all_spreads_no_delta := all_spreads_no_delta st ++ [spread];
         all_spreads_loose_delta :=
           if decide (-0.5 <= d ∧ d <= 0.5)
           then all_spreads_loose_delta st ++ [spread]
           else all_spreads_loose_delta st;
         all_spreads_strict_delta :=
           if decide (-0.2 <= d ∧ d <= 0.2)
           then all_spreads_strict_delta st ++ [spread]
           else all_spreads_strict_delta st;
         delta_stats := track_delta d (delta_stats st) |}
  end.

(** one pass of the innermost loop *)
Definition scan_pair (company : string) (current_stock_price : R)
    (st : Scan) (pair : Contract * Contract) : Scan :=
  record_verdict st (examine_pair company current_stock_price pair.1 pair.2).

(** [for exp_date, exp_data in company_options['expiration_dates'].items()] *)
Definition scan_expiration (company : string) (current_stock_price : R)
    (st : Scan) (entry : string * ExpirationData) : Scan :=
  foldl (scan_pair company current_stock_price) st
    (spread_pairs current_stock_price (contracts entry.2)).

(** [for company, company_options in options_data['options_by_company'].items()] *)
Definition scan_company (st : Scan) (entry : string * CompanyOptions) : Scan :=
  foldl (scan_expiration entry.1 (current_stock_price entry.2)) st
    (expiration_dates entry.2).
End LoopBody.

Definition empty_scan : Scan :=
  {| all_spreads_no_delta := [];
     all_spreads_loose_delta := [];
     all_spreads_strict_delta := [];
     delta_stats :=
       {| deltas_seen := []; negative_deltas := 0; neutral_deltas := 0;
          positive_deltas := 0 |} |}.

(** the loop variables when the loops are over (line 238) *)
Definition scan_all (options_data : OptionsData) (risk_data : RiskData)
    (price_data : PriceData) : Scan :=
  foldl
    (scan_company default_calculator (make_greek_lookup risk_data)
       (make_price_lookup price_data))
    empty_scan (options_by_company options_data).

(** * [find_deals_with_delta_analysis]

    [now] is the text [datetime.now().isoformat()] evaluates to during the
    run.  Of the printed report only line 246 is kept, where [min] and [max]
    raise [ValueError] on an empty [deltas_seen]: the function then neither
    writes nor returns a result. *)
Definition find_deals_with_delta_analysis (now : string)
    (options_data : OptionsData) (risk_data : RiskData)
    (price_data : PriceData) : Outcome Result :=
  let st := scan_all options_data risk_data price_data in
  let all_spreads_no_delta :=
    stable_sort by_probability_desc (all_spreads_no_delta st) in
  let all_spreads_loose_delta :=
    stable_sort by_probability_desc (all_spreads_loose_delta st) in
  let all_spreads_strict_delta :=
    stable_sort by_probability_desc (all_spreads_strict_delta st) in
  match deltas_seen (delta_stats st) with
  | [] => Raise ValueError
  | _ :: _ =>
      Return
        {| step := 5;
           filters_used := "ROI > 10%, PoP > 66%, NO delta filter";
           total_opportunities := length all_spreads_no_delta;
           delta_analysis :=
             {| no_delta_filter := length all_spreads_no_delta;
                loose_delta_filter := length all_spreads_loose_delta;
                strict_delta_filter := length all_spreads_strict_delta |};
           best_deals := take 25 all_spreads_no_delta;
           timestamp := now |}
  end.

(** the three lists after the sorts of lines 241-243 *)
Definition ranked_no_delta (options_data : OptionsData) (risk_data : RiskData)
    (price_data : PriceData) : list Spread :=
  stable_sort by_probability_desc
    (all_spreads_no_delta (scan_all options_data risk_data price_data)).

Definition ranked_loose_delta (options_data : OptionsData)
    (risk_data : RiskData) (price_data : PriceData) : list Spread :=
  stable_sort by_probability_desc
    (all_spreads_loose_delta (scan_all options_data risk_data price_data)).

Definition ranked_strict_delta (options_data : OptionsData)
    (risk_data : RiskData) (price_data : PriceData) : list Spread :=
  stable_sort by_probability_desc
    (all_spreads_strict_delta (scan_all options_data risk_data price_data)).

(** * The run seen as one pass over its candidates

    The definitions below do not come from the source: they name what the
    three nested loops range over, so that results about the lists can speak
    of the pair a spread was built from. *)

Record Candidate : Type := {
  candidate_company : string;
  candidate_stock_price : R;
  short_call : Contract;
  long_call : Contract }.

(** the pairs the loops visit, in the order they visit them *)
Definition candidates (options_data : OptionsData) : list Candidate :=
  entry ← options_by_company options_data;
  expiration ← expiration_dates entry.2;
  pair ← spread_pairs (current_stock_price entry.2) (contracts expiration.2);
  [ {| candidate_company := entry.1;
       candidate_stock_price := current_stock_price entry.2;
       short_call := pair.1;
       long_call := pair.2 |} ].

(** the verdict of the loop body on a candidate of a run *)
Definition verdict (risk_data : RiskData) (price_data : PriceData)
    (c : Candidate) : Verdict :=
  examine_pair default_calculator (make_greek_lookup risk_data)
    (make_price_lookup price_data) (candidate_company c)
    (candidate_stock_price c) (short_call c) (long_call c).

Definition accepted_spread (v : Verdict) : option Spread :=
  match v with Accepted spread => Some spread | _ => None end.

(** the delta a verdict adds to [deltas_seen] *)
Definition tracked_delta (v : Verdict) : option R :=
  match v with
  | Skipped => None
  | Rejected spread_delta => Some spread_delta
  | Accepted spread => Some (spread_delta spread)
  end.

Definition loose_delta (s : Spread) : Prop :=
  -0.5 <= spread_delta s ∧ spread_delta s <= 0.5.

Definition strict_delta (s : Spread) : Prop :=
  -0.2 <= spread_delta s ∧ spread_delta s <= 0.2.

(** the result with its clock reading replaced *)
Definition with_timestamp (now : string) (out : Outcome Result) : Outcome Result :=
  match out with
  | Return res =>
      Return
        {| step := step res;
           filters_used := filters_used res;
           total_opportunities := total_opportunities res;
           delta_analysis := delta_analysis res;
           best_deals := best_deals res;
           timestamp := now |}
  | Raise e => Raise e
  end.

(** an invariant of the loops: the loose and the strict list are the members of the first list that
    meet the delta bound, in the same order *)
Definition delta_lists_filtered (st : Scan) : Prop :=
  all_spreads_loose_delta st = filter loose_delta (all_spreads_no_delta st)
  ∧ all_spreads_strict_delta st = filter strict_delta (all_spreads_no_delta st).

(** a verdict that accepts, with a delta inside the strict bound *)
Definition accepts_strict (v : Verdict) : Prop :=
  ∃ s, v = Accepted s ∧ strict_delta s ∧ loose_delta s.

(** the data-completeness gaps of a candidate: one of its four lookups is
    missing, or its credit or its maximal risk is not positive *)
Definition data_gap (risk_data : RiskData) (price_data : PriceData)
    (c : Candidate) : Prop :=
  let greek_lookup := make_greek_lookup risk_data in
  let price_lookup := make_price_lookup price_data in
  greek_lookup !! streamer_symbol (short_call c) = None
  ∨ greek_lookup !! streamer_symbol (long_call c) = None
  ∨ match price_lookup !! streamer_symbol (short_call c),
          price_lookup !! streamer_symbol (long_call c) with
    | Some short_price_data, Some long_price_data =>
        let market_credit :=
          what_buyers_pay short_price_data - what_sellers_want long_price_data in
        market_credit <= 0
        ∨ strike_price (long_call c) - strike_price (short_call c)
          - market_credit <= 0
    | _, _ => True
    end.

(** * Sample datasets *)

Definition call_contract (symbol : string) (strike : R) (days : Z) : Contract :=
  {| contract_type := "CALL"; strike_price := strike;
     streamer_symbol := symbol; days_until_expires := days |}.

(** two listed calls of one expiration that share a strike *)
Definition twin_short : Contract := call_contract "XYZ_A" 105 30.
Definition twin_long : Contract := call_contract "XYZ_B" 105 30.

(** A ladder of [n + 1] calls of one company, deep out of the money: spot 10,
    strikes 30, 31, ..., one year to run, each quoted 0.60 bid and 0.10 ask
    at an implied volatility of 25%.  Its [n] neighbouring pairs are the
    candidates of the run. *)
Definition ladder_symbol (k : nat) : string := "LAD" +:+ pretty k.

Definition ladder_contract (k : nat) : Contract :=
  call_contract (ladder_symbol k) (30 + INR k) 365.

Definition ladder_greek (k : nat) : GreekRow :=
  {| greek_contract_name := ladder_symbol k; implied_volatility := 0.25 |}.

Definition ladder_price (k : nat) : PriceRow :=
  {| price_contract_name := ladder_symbol k;
     what_buyers_pay := 0.6; what_sellers_want := 0.1 |}.

Definition ladder_options (n : nat) : OptionsData :=
  {| options_by_company :=
       [("LAD",
         {| current_stock_price := 10;
            expiration_dates :=
              [("2026-01-16", {| contracts := ladder_contract <$> seq 0 (S n) |})]
         |})] |}.

Definition ladder_risk (n : nat) : RiskData :=
  {| risk_by_company := [("LAD", ladder_greek <$> seq 0 (S n))] |}.

Definition ladder_prices (n : nat) : PriceData :=
  {| prices_by_company := [("LAD", ladder_price <$> seq 0 (S n))] |}.

Definition ladder_candidate (k : nat) : Candidate :=
  {| candidate_company := "LAD";
     candidate_stock_price := 10;
     short_call := ladder_contract k;
     long_call := ladder_contract (S k) |}.

(** a quote dataset without a single row *)
Definition no_prices : PriceData := {| prices_by_company := [] |}.

(** a pair whose long leg is offered at no price: the credit is positive,
    the long ask is not *)
Definition free_short : Contract := call_contract "XYZ_C105" 105 30.
Definition free_long : Contract := call_contract "XYZ_C110" 110 30.

Definition free_long_prices : PriceData :=
  {| prices_by_company :=
       [("XYZ",
         [ {| price_contract_name := "XYZ_C105";
              what_buyers_pay := 1.5; what_sellers_want := 1.6 |};
           {| price_contract_name := "XYZ_C110";
              what_buyers_pay := 0; what_sellers_want := 0 |} ])] |}.

Definition free_long_risk : RiskData :=
  {| risk_by_company :=
       [("XYZ",
         [ {| greek_contract_name := "XYZ_C105"; implied_volatility := 0.3 |};
           {| greek_contract_name := "XYZ_C110"; implied_volatility := 0.3 |} ])]
  |}.

(** * Definitions used by the further properties *)

#[global] Instance R_eq_dec : EqDecision R := Req_dec_T.

(** what the three counters of [delta_stats] count *)
Definition stats_count (stats : DeltaStats) : Prop :=
  negative_deltas stats = length (filter (λ d, d < -0.1) (deltas_seen stats))
  ∧ neutral_deltas stats
    = length (filter (λ d, -0.1 <= d ∧ d <= 0.2) (deltas_seen stats))
  ∧ positive_deltas stats = length (filter (λ d, d > 0.2) (deltas_seen stats)).

(** the rows of the quote and of the risk dataset, in the order the lookups
    are built from them *)
Definition all_price_rows (price_data : PriceData) : list PriceRow :=
  entry ← prices_by_company price_data; entry.2.

Definition all_greek_rows (risk_data : RiskData) : list GreekRow :=
  entry ← risk_by_company risk_data; entry.2.

(** * The summary of [master.py] (lines 92-100)

    After the last step [run_complete_analysis] reads the result back and
    picks the top companies: it walks the first ten of [best_deals], keeps
    the first deal of every company not shown yet, and stops at three. *)
Fixpoint collect_top_companies (deals : list Spread)
    (companies_shown : gset string) (top_companies : list Spread)
    : list Spread :=
  match deals with
  | [] => top_companies
  | deal :: rest =>
      let fresh := decide (company deal ∉ companies_shown) in
      let companies_shown' :=
        if fresh then {[company deal]} ∪ companies_shown else companies_shown in
      let top_companies' :=
        if fresh then top_companies ++ [deal] else top_companies in
      if decide (3 <= length top_companies')%nat then top_companies'
      else collect_top_companies rest companies_shown' top_companies'
  end.

Definition top_companies (best_deals : list Spread) : list Spread :=
  collect_top_companies (take 10 best_deals) ∅ [].

(** a chain whose risk dataset reports no volatility: one pair, 105/110 over
    a spot of 100, credit 1.00 *)
Definition flat_options : OptionsData :=
  {| options_by_company :=
       [("XYZ",
         {| current_stock_price := 100;
            expiration_dates :=
              [("2026-02-20", {| contracts := [free_short; free_long] |})] |})]
  |}.

Definition flat_prices : PriceData :=
  {| prices_by_company :=
       [("XYZ",
         [ {| price_contract_name := "XYZ_C105";
              what_buyers_pay := 1.5; what_sellers_want := 1.6 |};
           {| price_contract_name := "XYZ_C110";
              what_buyers_pay := 0.4; what_sellers_want := 0.5 |} ])] |}.

Definition flat_risk : RiskData :=
  {| risk_by_company :=
       [("XYZ",
         [ {| greek_contract_name := "XYZ_C105"; implied_volatility := 0 |};
           {| greek_contract_name := "XYZ_C110"; implied_volatility := 0 |} ])]
  |}.

Definition flat_candidate : Candidate :=
  {| candidate_company := "XYZ"; candidate_stock_price := 100;
     short_call := free_short; long_call := free_long |}.
(** * Facts about the normal distribution *)

Lemma gauss_kernel_ge t : 1 - t * t / 2 <= gauss_kernel t.
Proof.
  unfold gauss_kernel.
  pose proof (exp_ineq1_le (- (t * t) / 2)). lra.
Qed.

Lemma gauss_mass_nonneg (x : R) : 0 <= x -> 0 <= gauss_mass x.
Proof.
  intros Hx. rewrite <- gauss_mass_0. apply gauss_mass_mono, Hx.
Qed.

Lemma sqrt_e_le_2 : exp (1 / 2) <= 2.
Proof.
  assert (H : exp (1 / 2) * exp (1 / 2) <= 3).
  { rewrite <- exp_plus. replace (1 / 2 + 1 / 2) with 1 by lra. apply exp_le_3. }
  pose proof (exp_pos (1 / 2)). nra.
Qed.

Lemma gauss_half_mass_lub : is_lub is_gauss_mass gauss_half_mass.
Proof.
  unfold gauss_half_mass.
  destruct (completeness is_gauss_mass gauss_mass_bound gauss_mass_inhabited) as [m Hm].
  exact Hm.
Qed.

Lemma gauss_mass_le_half_mass x : gauss_mass x <= gauss_half_mass.
Proof.
  destruct gauss_half_mass_lub as [Hub _]. apply Hub. exists x. reflexivity.
Qed.

Lemma gauss_half_mass_le_2 : gauss_half_mass <= 2.
Proof.
  destruct gauss_half_mass_lub as [_ Hlub].
  apply Hlub. intros y [x ->].
  apply Rle_trans with (exp (1 / 2));
    [apply gauss_mass_le_sqrt_e | apply sqrt_e_le_2].
Qed.

Lemma gauss_half_mass_tail (y : R) :
  0 <= y -> gauss_half_mass <= gauss_mass y + exp (1 / 2 - y).
Proof.
  intros Hy. destruct gauss_half_mass_lub as [_ Hlub].
  apply Hlub. intros z [x ->]. apply gauss_mass_tail, Hy.
Qed.

Lemma gauss_mass_1_ge : 11 / 16 <= gauss_mass 1.
Proof.
  rewrite (gauss_mass_split (1 / 2) 1 (gauss_kernel_integrable (1 / 2) 1)).
  assert (H1 : 7 / 8 * (1 / 2 - 0) <= gauss_mass (1 / 2)).
  { apply gauss_integral_ge; [lra |].
    intros t Ht. pose proof (gauss_kernel_ge t). nra. }
  assert (H2 : 1 / 2 * (1 - 1 / 2) <= RiemannInt (gauss_kernel_integrable (1 / 2) 1)).
  { apply gauss_integral_ge; [lra |].
    intros t Ht. pose proof (gauss_kernel_ge t). nra. }
  lra.
Qed.

Lemma gauss_half_mass_pos : 0 < gauss_half_mass.
Proof.
  pose proof (gauss_mass_le_half_mass 1). pose proof gauss_mass_1_ge. lra.
Qed.

Lemma gauss_ratio_bounds x :
  0 <= x -> 0 <= gauss_mass x / (2 * gauss_half_mass) <= 1 / 2.
Proof.
  intros Hx.
  pose proof gauss_half_mass_pos as HG.
  pose proof (gauss_mass_nonneg x Hx) as H0.
  pose proof (gauss_mass_le_half_mass x) as H1.
  assert (Hi : 0 < / (2 * gauss_half_mass)) by (apply Rinv_0_lt_compat; lra).
  assert (He : 2 * gauss_half_mass * / (2 * gauss_half_mass) = 1)
    by (apply Rinv_r; lra).
  unfold Rdiv. split; nra.
Qed.

Lemma norm_cdf_range x : 0 <= norm_cdf x <= 1.
Proof.
  unfold norm_cdf. destruct (Rle_dec 0 x) as [Hx | Hx].
  - pose proof (gauss_ratio_bounds x Hx). lra.
  - pose proof (gauss_ratio_bounds (- x) ltac:(lra)). lra.
Qed.

Lemma gauss_ratio_mono x y :
  x <= y -> gauss_mass x / (2 * gauss_half_mass) <= gauss_mass y / (2 * gauss_half_mass).
Proof.
  intros Hxy. pose proof gauss_half_mass_pos as HG.
  apply Rmult_le_compat_r.
  - left. apply Rinv_0_lt_compat. lra.
  - apply gauss_mass_mono, Hxy.
Qed.

Lemma norm_cdf_mono x y : x <= y -> norm_cdf x <= norm_cdf y.
Proof.
  intros Hxy. unfold norm_cdf.
  destruct (Rle_dec 0 x) as [Hx | Hx], (Rle_dec 0 y) as [Hy | Hy].
  - pose proof (gauss_ratio_mono x y Hxy). lra.
  - lra.
  - pose proof (gauss_ratio_bounds (- x) ltac:(lra)).
    pose proof (gauss_ratio_bounds y Hy). lra.
  - pose proof (gauss_ratio_mono (- y) (- x) ltac:(lra)). lra.
Qed.

Lemma norm_cdf_ge_1 x : 1 <= x -> 67 / 100 < norm_cdf x.
Proof.
  intros Hx. unfold norm_cdf. destruct (Rle_dec 0 x) as [_ | ?]; [| lra].
  pose proof gauss_half_mass_pos as HG.
  pose proof gauss_half_mass_le_2 as HG2.
  pose proof (gauss_mass_mono 1 x Hx) as Hm.
  pose proof gauss_mass_1_ge as H1.
  assert (Hi : 0 < / (2 * gauss_half_mass)) by (apply Rinv_0_lt_compat; lra).
  assert (He : 2 * gauss_half_mass * / (2 * gauss_half_mass) = 1)
    by (apply Rinv_r; lra).
  assert (17 / 100 < gauss_mass x / (2 * gauss_half_mass)); [| lra].
  unfold Rdiv. nra.
Qed.

Lemma norm_cdf_nonpos x : x <= 0 -> norm_cdf x <= 1 / 2.
Proof.
  intros Hx. unfold norm_cdf. destruct (Rle_dec 0 x) as [H0 | H0].
  - replace x with 0 by lra. rewrite gauss_mass_0. lra.
  - pose proof (gauss_ratio_bounds (- x) ltac:(lra)). lra.
Qed.

Lemma norm_cdf_ge_3 x : 3 <= x -> 4 / 5 < norm_cdf x.
Proof.
  intros Hx. unfold norm_cdf. destruct (Rle_dec 0 x) as [_ | ?]; [| lra].
  pose proof gauss_half_mass_pos as HG.
  pose proof (gauss_half_mass_tail x ltac:(lra)) as HG2.
  pose proof (gauss_mass_mono 1 x ltac:(lra)) as Hm.
  pose proof gauss_mass_1_ge as H1.
  assert (He : exp (1 / 2 - x) <= 2 / 7).
  { apply Rle_trans with (exp (- (5 / 2))).
    - destruct (Req_dec x 3) as [-> | Hne].
      + right. f_equal. lra.
      + left. apply exp_increasing. lra.
    - rewrite exp_Ropp. pose proof (exp_ineq1_le (5 / 2)) as H52.
      replace (2 / 7) with (/ (7 / 2)) by lra.
      apply Rinv_le_contravar; lra. }
  assert (Hi : 0 < / (2 * gauss_half_mass)) by (apply Rinv_0_lt_compat; lra).
  assert (Hr : 2 * gauss_half_mass * / (2 * gauss_half_mass) = 1)
    by (apply Rinv_r; lra).
  assert (3 / 10 < gauss_mass x / (2 * gauss_half_mass)); [| lra].
  unfold Rdiv. nra.
Qed.

Lemma norm_cdf_opp x : norm_cdf (- x) = 1 - norm_cdf x.
Proof.
  unfold norm_cdf.
  destruct (Rle_dec 0 x) as [Hx | Hx], (Rle_dec 0 (- x)) as [Hn | Hn]; try lra.
  - replace x with 0 by lra. replace (- 0) with 0 by lra.
    rewrite gauss_mass_0. lra.
  - rewrite Ropp_involutive. lra.
Qed.

Lemma norm_cdf_le_m3 x : x <= - 3 -> norm_cdf x < 1 / 5.
Proof.
  intros Hx. pose proof (norm_cdf_ge_3 (- x) ltac:(lra)) as H.
  rewrite norm_cdf_opp in H. lra.
Qed.

(** * Facts about the calculator *)

Lemma py_max_Rmax (a b : R) : py_max a b = Rmax a b.
Proof.
  unfold py_max, Rmax.
  destruct (decide (b > a)) as [H | H], (Rle_dec a b) as [H' | H']; lra.
Qed.

(** [sigma * sqrt T] is positive past the two degenerate guards *)
Lemma vol_sqrt_pos (T sigma : R) : 0 < T -> 0 < sigma -> 0 < sigma * sqrt T.
Proof.
  intros HT Hs. apply Rmult_lt_0_compat; [exact Hs | apply sqrt_lt_R0, HT].
Qed.

(** the [d2] term of [probability_otm] does not grow with the strike *)
Lemma d2_antitone (c S T sigma K1 K2 : R) :
  0 < S -> 0 < T -> 0 < sigma -> 0 < K1 -> K1 <= K2 ->
  (ln (S / K2) + c) / (sigma * sqrt T) <= (ln (S / K1) + c) / (sigma * sqrt T).
Proof.
  intros HS HT Hs HK1 HK.
  pose proof (vol_sqrt_pos T sigma HT Hs) as Hv.
  assert (Hinv : / K2 <= / K1) by (apply Rinv_le_contravar; lra).
  assert (HiK2 : 0 < / K2) by (apply Rinv_0_lt_compat; lra).
  assert (Hq : S / K2 <= S / K1) by (unfold Rdiv; nra).
  assert (Hq0 : 0 < S / K2) by (unfold Rdiv; nra).
  assert (Hln : ln (S / K2) <= ln (S / K1)).
  { destruct Hq as [Hlt | Heq]; [left; apply ln_increasing; lra | rewrite Heq; lra]. }
  apply Rmult_le_compat_r; [left; apply Rinv_0_lt_compat, Hv | lra].
Qed.

Lemma probability_otm_regular (self : BlackScholesCalculator)
    (S K T sigma : R) (option_type : string) :
  0 < T -> 0 < sigma ->
  probability_otm self S K T sigma option_type =
  let d2 := (ln (S / K) + (risk_free_rate self - 0.5 * sigma ^ 2) * T)
            / (sigma * sqrt T) in
  if decide (option_type = "call") then norm_cdf (- d2) else norm_cdf d2.
Proof.
  intros HT Hs. unfold probability_otm.
  rewrite !decide_False by lra. reflexivity.
Qed.

Lemma calculate_greeks_delta_range (S K T r sigma : R) (option_type : string) :
  (option_type = "call" -> 0 <= delta (calculate_greeks S K T r sigma option_type) <= 1)
  /\ (option_type <> "call" ->
      -1 <= delta (calculate_greeks S K T r sigma option_type) <= 0).
Proof.
  unfold calculate_greeks.
  destruct (decide (T <= 0)); [cbn; split; intros; lra |].
  destruct (decide (sigma <= 0)); [cbn; split; intros; lra |].
  cbv zeta.
  destruct (decide (option_type = "call")) as [Hc | Hc]; cbn [delta];
    split; intros H; try contradiction.
  - apply norm_cdf_range.
  - match goal with |- _ <= - norm_cdf ?x <= _ =>
      pose proof (norm_cdf_range x) end. lra.
Qed.

(** * Facts about the stable sort *)

Section StableSortFacts.
Context {A : Type} (before : A → A → Prop) `{!RelDecision before}.

Lemma insert_sorted_perm (x : A) (l : list A) :
  insert_sorted before x l ≡ₚ x :: l.
Proof.
  induction l as [| y l IH]; cbn; [done |].
  destruct (decide (before x y)); [done |].
  rewrite IH. apply Permutation_swap.
Qed.

Lemma stable_sort_cons (x : A) (l : list A) :
  stable_sort before (x :: l) = insert_sorted before x (stable_sort before l).
Proof. reflexivity. Qed.

Lemma stable_sort_perm (l : list A) : stable_sort before l ≡ₚ l.
Proof.
  induction l as [| x l IH]; [done |].
  rewrite stable_sort_cons, insert_sorted_perm. by f_equiv.
Qed.

Lemma elem_of_stable_sort (x : A) (l : list A) :
  x ∈ stable_sort before l ↔ x ∈ l.
Proof. by rewrite stable_sort_perm. Qed.

Lemma length_stable_sort (l : list A) :
  length (stable_sort before l) = length l.
Proof. by rewrite stable_sort_perm. Qed.

(** a list already in order is left as it is *)
Lemma stable_sort_sorted (l : list A) :
  StronglySorted before l → stable_sort before l = l.
Proof.
  induction 1 as [| x l Hl IH Hx]; [done |].
  rewrite stable_sort_cons, IH. destruct Hx as [| y l' Hxy _]; cbn; [done |].
  by rewrite decide_True.
Qed.

Context (before_total : ∀ x y, before x y ∨ before y x).
Context (before_trans : ∀ x y z, before x y → before y z → before x z).

Lemma insert_sorted_sorted (x : A) (l : list A) :
  StronglySorted before l → StronglySorted before (insert_sorted before x l).
Proof.
  induction 1 as [| y l Hl IH Hy]; cbn.
  - repeat constructor.
  - destruct (decide (before x y)) as [Hxy | Hxy].
    + constructor; [by constructor |].
      constructor; [done |].
      eapply Forall_impl; [exact Hy |]. intros z Hz. by eapply before_trans.
    + constructor; [done |].
      rewrite insert_sorted_perm. constructor; [| done].
      by destruct (before_total x y).
Qed.

Lemma stable_sort_is_sorted (l : list A) :
  StronglySorted before (stable_sort before l).
Proof.
  induction l as [| x l IH]; [constructor |].
  rewrite stable_sort_cons. by apply insert_sorted_sorted.
Qed.
End StableSortFacts.

Lemma by_strike_total (x y : Contract) : by_strike x y ∨ by_strike y x.
Proof. unfold by_strike. lra. Qed.

Lemma by_strike_trans (x y z : Contract) :
  by_strike x y → by_strike y z → by_strike x z.
Proof. unfold by_strike. lra. Qed.

Lemma by_probability_desc_total (x y : Spread) :
  by_probability_desc x y ∨ by_probability_desc y x.
Proof. unfold by_probability_desc. lra. Qed.

Lemma by_probability_desc_trans (x y z : Spread) :
  by_probability_desc x y → by_probability_desc y z → by_probability_desc x z.
Proof. unfold by_probability_desc. lra. Qed.

(** * Facts about the spread constructor *)

Lemma elem_of_adjacent_pairs {A : Type} (l : list A) (x y : A) :
  (x, y) ∈ adjacent_pairs l ↔ ∃ i : nat, l !! i = Some x ∧ l !! S i = Some y.
Proof.
  induction l as [| a l IH]; cbn.
  - rewrite elem_of_nil. split; [done | intros (i & Hi & _); done].
  - destruct l as [| b l].
    + rewrite elem_of_nil. split; [done |].
      intros ([| i] & _ & Hi); done.
    + rewrite elem_of_cons, IH. split.
      * intros [[= -> ->] | (i & Hi & Hj)]; [by exists 0%nat | by exists (S i)].
      * intros ([| i] & Hi & Hj).
        -- left. cbn in Hi, Hj. congruence.
        -- right. by exists i.
Qed.

Lemma adjacent_pairs_sorted {A : Type} (before : A → A → Prop)
    (l : list A) (x y : A) :
  StronglySorted before l → (x, y) ∈ adjacent_pairs l → before x y.
Proof.
  induction 1 as [| a l Hl IH Ha]; cbn; [by rewrite elem_of_nil |].
  destruct l as [| b l]; [by rewrite elem_of_nil |].
  rewrite elem_of_cons. intros [[= -> ->] | Hin]; [| by apply IH].
  by inversion Ha.
Qed.

Lemma adjacent_pairs_fmap_seq {A : Type} (f : nat → A) (a n : nat) :
  adjacent_pairs (f <$> seq a (S n)) = (λ k, (f k, f (S k))) <$> seq a n.
Proof.
  revert a. induction n as [| n IH]; intros a; [done |].
  change (adjacent_pairs (f <$> seq a (S (S n))))
    with ((f a, f (S a)) :: adjacent_pairs (f <$> seq (S a) (S n))).
  rewrite IH. reflexivity.
Qed.

Lemma calls_above_price_perm (spot : R) (cs : list Contract) :
  calls_above_price spot cs
  ≡ₚ filter (λ c, contract_type c = "CALL" ∧ strike_price c > spot) cs.
Proof.
  unfold calls_above_price. rewrite stable_sort_perm.
  rewrite list_filter_filter. apply reflexive_eq, list_filter_iff.
  intros c. tauto.
Qed.

(** * Facts about the loops *)

Section RecordFacts.
Context (st : Scan).

Lemma record_verdicts_no_delta (vs : list Verdict) :
  all_spreads_no_delta (foldl record_verdict st vs)
  = all_spreads_no_delta st ++ omap accepted_spread vs.
Proof.
  revert st. induction vs as [| v vs IH]; intros st'; cbn.
  - by rewrite app_nil_r.
  - rewrite IH. destruct v; cbn; [done | done |].
    by rewrite <- app_assoc.
Qed.

Lemma record_verdicts_deltas_seen (vs : list Verdict) :
  deltas_seen (delta_stats (foldl record_verdict st vs))
  = deltas_seen (delta_stats st) ++ omap tracked_delta vs.
Proof.
  revert st. induction vs as [| v vs IH]; intros st'; cbn.
  - by rewrite app_nil_r.
  - rewrite IH. destruct v; cbn; [done | |];
      unfold track_delta; repeat case_decide; cbn;
      by rewrite <- app_assoc.
Qed.
End RecordFacts.

Lemma record_verdict_filtered (st : Scan) (v : Verdict) :
  delta_lists_filtered st → delta_lists_filtered (record_verdict st v).
Proof.
  intros [Hl Hs]. destruct v as [| d | s]; [done | done |].
  unfold delta_lists_filtered. cbn. rewrite !filter_app, Hl, Hs.
  split.
  - destruct (decide (-0.5 <= spread_delta s ∧ spread_delta s <= 0.5)) as [H | H].
    + by rewrite (filter_cons_True loose_delta s).
    + rewrite (filter_cons_False loose_delta s) by done.
      by rewrite filter_nil, app_nil_r.
  - destruct (decide (-0.2 <= spread_delta s ∧ spread_delta s <= 0.2)) as [H | H].
    + by rewrite (filter_cons_True strict_delta s).
    + rewrite (filter_cons_False strict_delta s) by done.
      by rewrite filter_nil, app_nil_r.
Qed.

Lemma record_verdicts_filtered (st : Scan) (vs : list Verdict) :
  delta_lists_filtered st → delta_lists_filtered (foldl record_verdict st vs).
Proof.
  revert st. induction vs as [| v vs IH]; intros st H; [done |].
  cbn. by apply IH, record_verdict_filtered.
Qed.

Lemma foldl_bind {A B C : Type} (f : A → C → A) (g : B → list C)
    (a : A) (l : list B) :
  foldl f a (l ≫= g) = foldl (λ a x, foldl f a (g x)) a l.
Proof.
  revert a. induction l as [| x l IH]; intros a; [done |].
  rewrite bind_cons, foldl_app. apply IH.
Qed.

Lemma foldl_ext {A B : Type} (f g : A → B → A) (a : A) (l : list B) :
  (∀ a x, f a x = g a x) → foldl f a l = foldl g a l.
Proof.
  intros H. revert a. induction l as [| x l IH]; intros a; [done |].
  cbn. by rewrite H, IH.
Qed.

(** the nested loops are one pass over [candidates] *)
Lemma scan_all_verdicts (options_data : OptionsData) (risk_data : RiskData)
    (price_data : PriceData) :
  scan_all options_data risk_data price_data
  = foldl record_verdict empty_scan
      (verdict risk_data price_data <$> candidates options_data).
Proof.
  unfold scan_all, candidates.
  rewrite foldl_fmap, foldl_bind.
  apply foldl_ext. intros st entry.
  rewrite foldl_bind. unfold scan_company.
  apply foldl_ext. intros st' expiration.
  rewrite foldl_bind. unfold scan_expiration.
  apply foldl_ext. intros st'' pair. reflexivity.
Qed.

Lemma scan_all_no_delta (options_data : OptionsData) (risk_data : RiskData)
    (price_data : PriceData) :
  all_spreads_no_delta (scan_all options_data risk_data price_data)
  = omap accepted_spread (verdict risk_data price_data <$> candidates options_data).
Proof. rewrite scan_all_verdicts. apply record_verdicts_no_delta. Qed.

Lemma scan_all_deltas_seen (options_data : OptionsData) (risk_data : RiskData)
    (price_data : PriceData) :
  deltas_seen (delta_stats (scan_all options_data risk_data price_data))
  = omap tracked_delta (verdict risk_data price_data <$> candidates options_data).
Proof. rewrite scan_all_verdicts. apply record_verdicts_deltas_seen. Qed.

Lemma scan_all_filtered (options_data : OptionsData) (risk_data : RiskData)
    (price_data : PriceData) :
  delta_lists_filtered (scan_all options_data risk_data price_data).
Proof.
  rewrite scan_all_verdicts. apply record_verdicts_filtered.
  split; reflexivity.
Qed.

Lemma elem_of_candidates (options_data : OptionsData) (c : Candidate) :
  c ∈ candidates options_data ↔
  ∃ entry expiration,
    entry ∈ options_by_company options_data
    ∧ expiration ∈ expiration_dates entry.2
    ∧ (short_call c, long_call c)
        ∈ spread_pairs (current_stock_price entry.2) (contracts expiration.2)
    ∧ candidate_company c = entry.1
    ∧ candidate_stock_price c = current_stock_price entry.2.
Proof.
  unfold candidates. rewrite list_elem_of_bind. split.
  - intros (entry & Hc & Hentry).
    apply list_elem_of_bind in Hc as (expiration & Hc & Hexp).
    apply list_elem_of_bind in Hc as ([short long] & Hc & Hpair).
    apply list_elem_of_singleton in Hc as ->.
    by exists entry, expiration.
  - intros (entry & expiration & Hentry & Hexp & Hpair & Hco & Hsp).
    exists entry. split; [| done].
    apply list_elem_of_bind. exists expiration. split; [| done].
    apply list_elem_of_bind. exists (short_call c, long_call c). split; [| done].
    apply list_elem_of_singleton. destruct c; cbn in *. by subst.
Qed.

Lemma elem_of_no_delta (options_data : OptionsData) (risk_data : RiskData)
    (price_data : PriceData) (s : Spread) :
  s ∈ all_spreads_no_delta (scan_all options_data risk_data price_data) ↔
  ∃ c, c ∈ candidates options_data ∧ verdict risk_data price_data c = Accepted s.
Proof.
  rewrite scan_all_no_delta, list_elem_of_omap. split.
  - intros (v & Hv & Hs). apply list_elem_of_fmap in Hv as (c & -> & Hc).
    exists c. split; [done |].
    destruct (verdict risk_data price_data c); cbn in Hs; congruence.
  - intros (c & Hc & Hv). exists (Accepted s). split; [| done].
    rewrite <- Hv. by apply list_elem_of_fmap_2.
Qed.

(** ** The loop body, case by case *)

Section LoopBodyFacts.
Context (bs_calc : BlackScholesCalculator).
Context (greek_lookup : gmap string GreekRow).
Context (price_lookup : gmap string PriceRow).
Context (co : string) (spot : R) (short long : Contract).

Lemma examine_pair_missing :
  price_lookup !! streamer_symbol short = None
  ∨ price_lookup !! streamer_symbol long = None
  ∨ greek_lookup !! streamer_symbol short = None
  ∨ greek_lookup !! streamer_symbol long = None →
  examine_pair bs_calc greek_lookup price_lookup co spot short long
  = Skipped.
Proof.
  unfold examine_pair.
  intros [H | [H | [H | H]]]; rewrite H;
    repeat match goal with |- context [match ?m !! ?k with _ => _ end] =>
      destruct (m !! k) end; reflexivity.
Qed.

Context (short_price_data long_price_data : PriceRow).
Context (short_greek_data long_greek_data : GreekRow).
Context (Hsp : price_lookup !! streamer_symbol short = Some short_price_data).
Context (Hlp : price_lookup !! streamer_symbol long = Some long_price_data).
Context (Hsg : greek_lookup !! streamer_symbol short = Some short_greek_data).
Context (Hlg : greek_lookup !! streamer_symbol long = Some long_greek_data).

Let time_to_exp := IZR (days_until_expires short) / 365.
Let short_bid := what_buyers_pay short_price_data.
Let long_ask := what_sellers_want long_price_data.
Let market_credit := short_bid - long_ask.
Let strike_width := strike_price long - strike_price short.
Let avg_iv :=
  (implied_volatility short_greek_data + implied_volatility long_greek_data) / 2.
Let prob_profit_bs :=
  probability_otm bs_calc spot (strike_price short) time_to_exp avg_iv "call"
  * 100.
Let short_delta :=
  delta (calculate_greeks spot (strike_price short) time_to_exp
           (risk_free_rate bs_calc) (implied_volatility short_greek_data) "call").
Let long_delta :=
  delta (calculate_greeks spot (strike_price long) time_to_exp
           (risk_free_rate bs_calc) (implied_volatility long_greek_data) "call").

(** the [continue]s of lines 159-172 *)
Lemma examine_pair_unpriced :
  time_to_exp <= 0 ∨ short_bid <= 0 ∨ long_ask <= 0 ∨ market_credit <= 0 →
  examine_pair bs_calc greek_lookup price_lookup co spot short long
  = Skipped.
Proof.
  unfold examine_pair. rewrite Hsp, Hlp, Hsg, Hlg.
  subst time_to_exp short_bid long_ask market_credit. intros H.
  repeat case_decide; try reflexivity; exfalso; lra.
Qed.

(** a pair whose width does not exceed its credit has ROI 0 and leaves
    through the basic filters *)
Lemma examine_pair_no_risk :
  0 < time_to_exp → 0 < short_bid → 0 < long_ask → 0 < market_credit →
  strike_width - market_credit <= 0 →
  examine_pair bs_calc greek_lookup price_lookup co spot short long
  = Rejected (short_delta - long_delta).
Proof.
  unfold examine_pair. rewrite Hsp, Hlp, Hsg, Hlg.
  subst time_to_exp short_bid long_ask market_credit strike_width
    short_delta long_delta.
  intros HT Hb Ha Hc Hr.
  rewrite (decide_False (P := _ / 365 <= 0)) by lra.
  rewrite (decide_False (P := _ ∨ _)) by lra.
  rewrite (decide_False (P := _ - _ <= 0)) by lra.
  rewrite (decide_False (P := _ > 0)) by lra.
  rewrite (decide_True (P := _ ∨ _)) by lra.
  reflexivity.
Qed.

Lemma examine_pair_accepted (s : Spread) :
  examine_pair bs_calc greek_lookup price_lookup co spot short long
  = Accepted s →
  (0 < time_to_exp ∧ 0 < short_bid ∧ 0 < long_ask ∧ 0 < market_credit
   ∧ 0 < strike_width - market_credit)
  ∧ (probability_of_profit s = prob_profit_bs
     ∧ avg_implied_volatility s = avg_iv
     ∧ roi_percent s = market_credit / (strike_width - market_credit) * 100
     ∧ spread_delta s = short_delta - long_delta)
  ∧ (10 < roi_percent s ∧ 66 < probability_of_profit s)
  ∧ (company s = co ∧ short_strike s = strike_price short
     ∧ long_strike s = strike_price long
     ∧ days_to_expiration s = days_until_expires short
     ∧ credit_collected s = market_credit
     ∧ max_risk s = strike_width - market_credit
     ∧ spread_stock_price s = spot).
Proof.
  unfold examine_pair. rewrite Hsp, Hlp, Hsg, Hlg.
  subst time_to_exp short_bid long_ask market_credit strike_width avg_iv
    prob_profit_bs short_delta long_delta.
  repeat case_decide; intros [= <-]; cbn;
    repeat split; try reflexivity; lra.
Qed.

Lemma examine_pair_accepts :
  0 < time_to_exp → 0 < short_bid → 0 < long_ask → 0 < market_credit →
  0 < strike_width - market_credit →
  10 < market_credit / (strike_width - market_credit) * 100 →
  66 < prob_profit_bs →
  ∃ s, examine_pair bs_calc greek_lookup price_lookup co spot short long
       = Accepted s
       ∧ spread_delta s = short_delta - long_delta.
Proof.
  unfold examine_pair. rewrite Hsp, Hlp, Hsg, Hlg.
  subst time_to_exp short_bid long_ask market_credit strike_width avg_iv
    prob_profit_bs short_delta long_delta.
  intros HT Hb Ha Hc Hr Hroi Hpop.
  rewrite (decide_False (P := _ / 365 <= 0)) by lra.
  rewrite (decide_False (P := _ ∨ _)) by lra.
  rewrite (decide_False (P := _ - _ <= 0)) by lra.
  rewrite (decide_True (P := _ > 0)) by lra.
  rewrite (decide_False (P := _ ∨ _)) by lra.
  eexists. split; reflexivity.
Qed.
End LoopBodyFacts.

(** ** The lookups: the last row of a name wins *)

Lemma index_prices_lookup (rows : list PriceRow) (m : gmap string PriceRow)
    (name : string) :
  index_prices m rows !! name
  = match last (filter (λ row, price_contract_name row = name) rows) with
    | Some row => Some row
    | None => m !! name
    end.
Proof.
  revert m. induction rows as [| row rows IH]; intros m; [done |].
  unfold index_prices in *. cbn [foldl]. rewrite IH.
  destruct (decide (price_contract_name row = name)) as [Heq | Hne].
  - rewrite filter_cons_True by done. rewrite last_cons.
    destruct (last _); [done |]. rewrite <- Heq. apply lookup_insert_eq.
  - rewrite filter_cons_False by done.
    destruct (last _); [done |]. by apply lookup_insert_ne.
Qed.

Lemma index_greeks_lookup (rows : list GreekRow) (m : gmap string GreekRow)
    (name : string) :
  index_greeks m rows !! name
  = match last (filter (λ row, greek_contract_name row = name) rows) with
    | Some row => Some row
    | None => m !! name
    end.
Proof.
  revert m. induction rows as [| row rows IH]; intros m; [done |].
  unfold index_greeks in *. cbn [foldl]. rewrite IH.
  destruct (decide (greek_contract_name row = name)) as [Heq | Hne].
  - rewrite filter_cons_True by done. rewrite last_cons.
    destruct (last _); [done |]. rewrite <- Heq. apply lookup_insert_eq.
  - rewrite filter_cons_False by done.
    destruct (last _); [done |]. by apply lookup_insert_ne.
Qed.

Lemma last_filter_fmap_seq {A : Type} (f : nat → A) (P : A → Prop)
    `{!∀ x, Decision (P x)} (n k : nat) :
  (k < n)%nat → P (f k) →
  ∃ j, (j < n)%nat ∧ P (f j) ∧ last (filter P (f <$> seq 0 n)) = Some (f j).
Proof.
  intros Hk HP.
  assert (Hin : f k ∈ filter P (f <$> seq 0 n)).
  { apply list_elem_of_filter. split; [done |].
    apply list_elem_of_fmap_2, elem_of_seq. lia. }
  destruct (last (filter P (f <$> seq 0 n))) as [x |] eqn:Hlast.
  - apply last_Some_elem_of, list_elem_of_filter in Hlast as [Hx Hmem].
    apply list_elem_of_fmap in Hmem as (j & -> & Hj).
    apply elem_of_seq in Hj. exists j. repeat split; [lia | done].
  - apply last_None in Hlast. rewrite Hlast in Hin. by apply elem_of_nil in Hin.
Qed.

(** ** The ladder *)

Lemma ladder_price_lookup (n k : nat) :
  (k <= n)%nat →
  ∃ row, make_price_lookup (ladder_prices n) !! ladder_symbol k = Some row
         ∧ what_buyers_pay row = 0.6 ∧ what_sellers_want row = 0.1.
Proof.
  intros Hk. unfold make_price_lookup. cbn [ladder_prices prices_by_company foldl snd].
  rewrite index_prices_lookup.
  destruct (last_filter_fmap_seq ladder_price
              (λ row, price_contract_name row = ladder_symbol k) (S n) k)
    as (j & _ & _ & ->); [lia | done |].
  by exists (ladder_price j).
Qed.

Lemma ladder_greek_lookup (n k : nat) :
  (k <= n)%nat →
  ∃ row, make_greek_lookup (ladder_risk n) !! ladder_symbol k = Some row
         ∧ implied_volatility row = 0.25.
Proof.
  intros Hk. unfold make_greek_lookup. cbn [ladder_risk risk_by_company foldl snd].
  rewrite index_greeks_lookup.
  destruct (last_filter_fmap_seq ladder_greek
              (λ row, greek_contract_name row = ladder_symbol k) (S n) k)
    as (j & _ & _ & ->); [lia | done |].
  by exists (ladder_greek j).
Qed.

(** a strike at three times the spot or beyond *)
Lemma ln_far_strike (S K : R) : 0 < S → 3 * S <= K → ln (S / K) <= -1.
Proof.
  intros HS HK.
  assert (HiK : 0 < / K) by (apply Rinv_0_lt_compat; lra).
  assert (HKK : K * / K = 1) by (apply Rinv_r; lra).
  assert (Hq : 0 < S / K <= 1 / 3) by (unfold Rdiv; split; nra).
  assert (He : 1 / 3 <= exp (Ropp 1)).
  { rewrite exp_Ropp. pose proof exp_le_3. pose proof (exp_pos 1).
    replace (1 / 3) with (/ 3) by lra. apply Rinv_le_contravar; lra. }
  replace (-1) with (Ropp 1) by lra.
  rewrite <- (ln_exp (Ropp 1)).
  destruct (Req_dec (S / K) (exp (Ropp 1))) as [-> | Hne]; [lra |].
  left. apply ln_increasing; lra.
Qed.

Lemma far_call_probability (S K T sigma : R) :
  0 < S → 3 * S <= K → T = 1 → sigma = 1 / 4 →
  67 < probability_otm default_calculator S K T sigma "call" * 100.
Proof.
  intros HS HK -> ->. rewrite probability_otm_regular by lra.
  cbv zeta. destruct (decide ("call" = "call")); [| done].
  cbn. rewrite sqrt_1.
  pose proof (ln_far_strike S K HS HK) as Hln.
  match goal with |- _ < norm_cdf ?x * _ =>
    pose proof (norm_cdf_ge_1 x ltac:(lra)) end.
  lra.
Qed.

Lemma far_call_delta (S K T sigma : R) :
  0 < S → 3 * S <= K → T = 1 → sigma = 1 / 4 →
  0 <= delta (calculate_greeks S K T 0.05 sigma "call") < 1 / 5.
Proof.
  intros HS HK -> ->. unfold calculate_greeks.
  rewrite !decide_False by lra.
  cbv zeta. destruct (decide ("call" = "call")); [| done].
  cbn. rewrite sqrt_1.
  pose proof (ln_far_strike S K HS HK) as Hln.
  match goal with |- _ <= norm_cdf ?x < _ =>
    pose proof (norm_cdf_le_m3 x ltac:(lra));
    pose proof (norm_cdf_range x) end.
  lra.
Qed.

Lemma filter_all {A : Type} (P : A → Prop) `{!∀ x, Decision (P x)} (l : list A) :
  Forall P l → filter P l = l.
Proof.
  induction 1 as [| x l Hx _ IH]; [done |].
  by rewrite filter_cons_True, IH.
Qed.

Lemma bind_singleton {A B : Type} (f : A → B) (l : list A) :
  l ≫= (λ x, [f x]) = f <$> l.
Proof. induction l as [| x l IH]; [done |]. by rewrite bind_cons, IH. Qed.

Lemma bind_one {A B : Type} (f : A → list B) (x : A) : [x] ≫= f = f x.
Proof. rewrite bind_cons. apply app_nil_r. Qed.

Lemma ladder_sorted (a m : nat) :
  StronglySorted by_strike (ladder_contract <$> seq a m).
Proof.
  revert a. induction m as [| m IH]; intros a; [constructor |].
  cbn [seq fmap list_fmap]. constructor; [apply IH |].
  apply Forall_forall. intros c Hc.
  apply list_elem_of_fmap in Hc as (j & -> & Hj). apply elem_of_seq in Hj.
  unfold by_strike. cbn.
  assert (INR a <= INR j) by (apply le_INR; lia). lra.
Qed.

Lemma ladder_calls_above_price (n : nat) :
  calls_above_price 10 (ladder_contract <$> seq 0 n)
  = ladder_contract <$> seq 0 n.
Proof.
  unfold calls_above_price.
  rewrite (filter_all (λ c, contract_type c = "CALL")).
  2:{ apply Forall_forall. intros c Hc.
      by apply list_elem_of_fmap in Hc as (j & -> & _). }
  rewrite (filter_all (λ c, strike_price c > 10)).
  2:{ apply Forall_forall. intros c Hc.
      apply list_elem_of_fmap in Hc as (j & -> & _). cbn.
      pose proof (pos_INR j). lra. }
  apply stable_sort_sorted, ladder_sorted.
Qed.

Lemma ladder_spread_pairs (n : nat) :
  spread_pairs 10 (ladder_contract <$> seq 0 (S n))
  = (λ k, (ladder_contract k, ladder_contract (S k))) <$> seq 0 n.
Proof.
  unfold spread_pairs.
  rewrite ladder_calls_above_price, adjacent_pairs_fmap_seq.
  apply filter_all, Forall_forall. intros p Hp.
  apply list_elem_of_fmap in Hp as (j & -> & _).
  unfold within_width. cbn [fst snd]. unfold ladder_contract, call_contract.
  cbn [strike_price]. rewrite S_INR. lra.
Qed.

Lemma ladder_candidates (n : nat) :
  candidates (ladder_options n) = ladder_candidate <$> seq 0 n.
Proof.
  unfold candidates, ladder_options. cbn [options_by_company].
  rewrite bind_one.
  cbn [expiration_dates snd fst current_stock_price].
  rewrite bind_one.
  cbn [contracts snd]. rewrite ladder_spread_pairs.
  rewrite bind_singleton, <- list_fmap_compose. reflexivity.
Qed.

Lemma ladder_verdict (n k : nat) :
  (k < n)%nat →
  ∃ s, verdict (ladder_risk n) (ladder_prices n) (ladder_candidate k) = Accepted s
       ∧ strict_delta s ∧ loose_delta s.
Proof.
  intros Hk.
  destruct (ladder_price_lookup n k ltac:(lia)) as (sp & Hsp & Hsb & _).
  destruct (ladder_price_lookup n (S k) ltac:(lia)) as (lp & Hlp & _ & Hla).
  destruct (ladder_greek_lookup n k ltac:(lia)) as (sg & Hsg & Hsiv).
  destruct (ladder_greek_lookup n (S k) ltac:(lia)) as (lg & Hlg & Hliv).
  pose proof (pos_INR k) as Hk0. pose proof (S_INR k) as HSk.
  pose proof (examine_pair_accepts default_calculator
              (make_greek_lookup (ladder_risk n))
              (make_price_lookup (ladder_prices n))
              "LAD" 10 (ladder_contract k) (ladder_contract (S k))
              sp lp sg lg Hsp Hlp Hsg Hlg) as Hacc.
  pose proof (far_call_probability 10 (30 + INR k) (365 / 365)
                ((0.25 + 0.25) / 2)
                ltac:(lra) ltac:(lra) ltac:(lra) ltac:(lra)) as Hpop.
  pose proof (far_call_delta 10 (30 + INR k) (365 / 365) 0.25
                ltac:(lra) ltac:(lra) ltac:(lra) ltac:(lra)) as Hd1.
  pose proof (far_call_delta 10 (30 + INR (S k)) (365 / 365) 0.25
                ltac:(lra) ltac:(lra) ltac:(lra) ltac:(lra)) as Hd2.
  unfold ladder_contract, call_contract in Hacc.
  cbn [strike_price days_until_expires risk_free_rate default_calculator] in Hacc.
  rewrite Hsb, Hla, Hsiv, Hliv in Hacc.
  replace (30 + INR (S k) - (30 + INR k)) with 1 in Hacc by lra.
  destruct Hacc as (s & Hs & Hd); try lra.
  exists s. split; [exact Hs |].
  unfold strict_delta, loose_delta. rewrite Hd. lra.
Qed.

Lemma all_accepted (vs : list Verdict) :
  Forall accepts_strict vs →
  length (omap accepted_spread vs) = length vs
  ∧ length (omap tracked_delta vs) = length vs
  ∧ Forall strict_delta (omap accepted_spread vs)
  ∧ Forall loose_delta (omap accepted_spread vs).
Proof.
  induction 1 as [| v vs (s & -> & Hs & Hl) _ (IH1 & IH2 & IH3 & IH4)]; [done |].
  cbn. rewrite IH1, IH2. repeat split; by try constructor.
Qed.

Lemma ladder_verdicts (n : nat) :
  Forall accepts_strict
    (verdict (ladder_risk n) (ladder_prices n) <$> candidates (ladder_options n)).
Proof.
  rewrite ladder_candidates. apply Forall_forall. intros v Hv.
  apply list_elem_of_fmap in Hv as (c & -> & Hc).
  apply list_elem_of_fmap in Hc as (k & -> & Hk).
  apply elem_of_seq in Hk. apply ladder_verdict. lia.
Qed.

Lemma ladder_verdicts_length (n : nat) :
  length (verdict (ladder_risk n) (ladder_prices n)
            <$> candidates (ladder_options n)) = n.
Proof. by rewrite ladder_candidates, !length_fmap, length_seq. Qed.

(** every pair of the ladder enters each of the three lists *)
Lemma ladder_scan (n : nat) :
  let st := scan_all (ladder_options n) (ladder_risk n) (ladder_prices n) in
  length (all_spreads_no_delta st) = n
  ∧ length (all_spreads_loose_delta st) = n
  ∧ length (all_spreads_strict_delta st) = n
  ∧ length (deltas_seen (delta_stats st)) = n.
Proof.
  cbv zeta.
  destruct (scan_all_filtered (ladder_options n) (ladder_risk n)
              (ladder_prices n)) as [-> ->].
  rewrite scan_all_deltas_seen, scan_all_no_delta.
  destruct (all_accepted _ (ladder_verdicts n)) as (H1 & H2 & H3 & H4).
  rewrite !filter_all by done.
  rewrite H1, H2, ladder_verdicts_length. done.
Qed.

Lemma ladder_run (now : string) (n : nat) :
  (0 < n)%nat →
  ∃ res,
    find_deals_with_delta_analysis now (ladder_options n) (ladder_risk n)
      (ladder_prices n) = Return res
    ∧ timestamp res = now
    ∧ total_opportunities res = n
    ∧ loose_delta_filter (delta_analysis res) = n
    ∧ strict_delta_filter (delta_analysis res) = n.
Proof.
  intros Hn. unfold find_deals_with_delta_analysis.
  destruct (ladder_scan n) as (H1 & H2 & H3 & H4).
  destruct (deltas_seen _) as [| d ds]; [cbn in H4; lia |].
  eexists. split; [reflexivity |].
  cbn [timestamp total_opportunities delta_analysis loose_delta_filter
       strict_delta_filter].
  by rewrite !length_stable_sort, H1, H2, H3.
Qed.

Lemma ladder_strict_member (n : nat) :
  (0 < n)%nat →
  ∃ s, s ∈ ranked_strict_delta (ladder_options n) (ladder_risk n) (ladder_prices n).
Proof.
  intros Hn. unfold ranked_strict_delta.
  destruct (ladder_scan n) as (_ & _ & H3 & _).
  destruct (all_spreads_strict_delta _) as [| s l] eqn:E; [cbn in H3; lia |].
  exists s. apply elem_of_stable_sort. by left.
Qed.

(** ** When the run raises *)

Lemma all_skipped (vs : list Verdict) :
  Forall (λ v, v = Skipped) vs → omap tracked_delta vs = [].
Proof. induction 1 as [| v vs -> _ IH]; [done |]. by cbn. Qed.

Lemma make_price_lookup_empty : make_price_lookup no_prices = ∅.
Proof. reflexivity. Qed.

Lemma unquoted_ladder_skipped (n : nat) (c : Candidate) :
  verdict (ladder_risk n) no_prices c = Skipped.
Proof.
  apply examine_pair_missing. left.
  rewrite make_price_lookup_empty. apply lookup_empty.
Qed.

(** ** Where an accepted spread comes from *)

Lemma examine_pair_accepted_lookups (bs_calc : BlackScholesCalculator)
    (greek_lookup : gmap string GreekRow) (price_lookup : gmap string PriceRow)
    (co : string) (spot : R) (short long : Contract) :
  examine_pair bs_calc greek_lookup price_lookup co spot short long ≠ Skipped →
  ∃ short_price_data long_price_data short_greek_data long_greek_data,
    price_lookup !! streamer_symbol short = Some short_price_data
    ∧ price_lookup !! streamer_symbol long = Some long_price_data
    ∧ greek_lookup !! streamer_symbol short = Some short_greek_data
    ∧ greek_lookup !! streamer_symbol long = Some long_greek_data.
Proof.
  intros H.
  destruct (price_lookup !! streamer_symbol short) as [sp |] eqn:Hsp;
    [| exfalso; apply H, examine_pair_missing; auto].
  destruct (price_lookup !! streamer_symbol long) as [lp |] eqn:Hlp;
    [| exfalso; apply H, examine_pair_missing; auto].
  destruct (greek_lookup !! streamer_symbol short) as [sg |] eqn:Hsg;
    [| exfalso; apply H, examine_pair_missing; auto].
  destruct (greek_lookup !! streamer_symbol long) as [lg |] eqn:Hlg;
    [| exfalso; apply H, examine_pair_missing; auto].
  by exists sp, lp, sg, lg.
Qed.

Lemma ranked_no_delta_elem (options_data : OptionsData) (risk_data : RiskData)
    (price_data : PriceData) (s : Spread) :
  s ∈ ranked_no_delta options_data risk_data price_data ↔
  ∃ c, c ∈ candidates options_data ∧ verdict risk_data price_data c = Accepted s.
Proof.
  unfold ranked_no_delta. rewrite elem_of_stable_sort. apply elem_of_no_delta.
Qed.

Lemma ranked_loose_delta_elem (options_data : OptionsData) (risk_data : RiskData)
    (price_data : PriceData) (s : Spread) :
  s ∈ ranked_loose_delta options_data risk_data price_data ↔
  s ∈ ranked_no_delta options_data risk_data price_data ∧ loose_delta s.
Proof.
  unfold ranked_loose_delta, ranked_no_delta. rewrite !elem_of_stable_sort.
  destruct (scan_all_filtered options_data risk_data price_data) as [-> _].
  rewrite list_elem_of_filter. tauto.
Qed.

Lemma ranked_strict_delta_elem (options_data : OptionsData) (risk_data : RiskData)
    (price_data : PriceData) (s : Spread) :
  s ∈ ranked_strict_delta options_data risk_data price_data ↔
  s ∈ ranked_no_delta options_data risk_data price_data ∧ strict_delta s.
Proof.
  unfold ranked_strict_delta, ranked_no_delta. rewrite !elem_of_stable_sort.
  destruct (scan_all_filtered options_data risk_data price_data) as [_ ->].
  rewrite list_elem_of_filter. tauto.
Qed.

Lemma ranked_sorted (l : list Spread) :
  StronglySorted by_probability_desc (stable_sort by_probability_desc l).
Proof.
  apply stable_sort_is_sorted;
    [apply by_probability_desc_total | apply by_probability_desc_trans].
Qed.

Lemma StronglySorted_take {A : Type} (R : A → A → Prop) (n : nat) (l : list A) :
  StronglySorted R l → StronglySorted R (take n l).
Proof.
  intros H. rewrite <- (take_drop n l) in H.
  by apply StronglySorted_app_1_l in H.
Qed.

(** a candidate with a data-completeness gap enters none of the lists *)
Lemma gap_candidate_not_accepted (risk_data : RiskData) (price_data : PriceData)
    (c : Candidate) :
  data_gap risk_data price_data c →
  accepted_spread (verdict risk_data price_data c) = None.
Proof.
  intros Hgap.
  destruct (verdict risk_data price_data c) as [| d | s] eqn:Hv; [done | done |].
  exfalso. unfold verdict in Hv.
  destruct (examine_pair_accepted_lookups _ _ _ _ _ _ _
              ltac:(rewrite Hv; discriminate))
    as (sp & lp & sg & lg & H1 & H2 & H3 & H4).
  destruct (examine_pair_accepted _ _ _ _ _ _ _ _ _ _ _ H1 H2 H3 H4 s Hv)
    as ((_ & _ & _ & Hcredit & Hrisk) & _).
  unfold data_gap in Hgap. cbv zeta in Hgap. rewrite H1, H2, H3, H4 in Hgap.
  destruct Hgap as [? | [? | [? | ?]]]; try discriminate; lra.
Qed.

(** * The pricing model *)

(** C5, as the code has it: [black_scholes_call], the one price operation of
    the calculator, returns the intrinsic value of the call, [max (S - K) 0],
    whenever [T <= 0] or [sigma <= 0], whatever the rate. *)
Theorem black_scholes_call_degenerate (S K T r sigma : R) :
  0 < S -> 0 < K -> T <= 0 \/ sigma <= 0 ->
  black_scholes_call S K T r sigma = Rmax (S - K) 0.
Proof.
  intros _ _ Hdeg. unfold black_scholes_call.
  destruct (decide (T <= 0)); [apply py_max_Rmax |].
  destruct (decide (sigma <= 0)); [apply py_max_Rmax | lra].
Qed.

Lemma black_scholes_call_degenerate_witness :
  black_scholes_call 100 105 0 0.05 0.3 = Rmax (100 - 105) 0.
Proof. apply black_scholes_call_degenerate; lra. Defined.

(** C5, the put half: the calculator prices calls only and takes no option
    type, so at [S = 1], [K = 2], [T = 0] the price it returns is not the
    intrinsic value [max (K - S) 0] of the put. *)
Lemma black_scholes_call_not_put_intrinsic :
  black_scholes_call 1 2 0 0.05 0.3 <> Rmax (2 - 1) 0.
Proof.
  unfold black_scholes_call. rewrite decide_True by lra.
  rewrite py_max_Rmax. unfold Rmax.
  destruct (Rle_dec (1 - 2) 0), (Rle_dec (2 - 1) 0); lra.
Qed.

(** C6: with spot, time and volatility fixed and positive, the probability
    that a call finishes out of the money does not decrease with the strike. *)
Theorem probability_otm_call_monotone (self : BlackScholesCalculator)
    (S T sigma K1 K2 : R) :
  0 < S -> 0 < T -> 0 < sigma -> 0 < K1 -> K1 <= K2 ->
  probability_otm self S K1 T sigma "call"
  <= probability_otm self S K2 T sigma "call".
Proof.
  intros HS HT Hs HK1 HK.
  rewrite !probability_otm_regular by assumption. cbn.
  apply norm_cdf_mono, Ropp_le_contravar.
  apply d2_antitone; assumption.
Qed.

Lemma probability_otm_call_monotone_witness :
  probability_otm default_calculator 100 105 (30 / 365) 0.3 "call"
  <= probability_otm default_calculator 100 108 (30 / 365) 0.3 "call".
Proof. apply probability_otm_call_monotone; lra. Defined.

(** C7: for positive spot, strike, volatility and time the delta of a call
    lies in [0, 1] and the delta of a put in [-1, 0]. *)
Theorem calculate_greeks_delta_bounds (S K T r sigma : R) :
  0 < S -> 0 < K -> 0 < sigma -> 0 < T ->
  0 <= delta (calculate_greeks S K T r sigma "call") <= 1
  /\ -1 <= delta (calculate_greeks S K T r sigma "put") <= 0.
Proof.
  intros _ _ _ _. split.
  - apply calculate_greeks_delta_range. reflexivity.
  - apply calculate_greeks_delta_range. discriminate.
Qed.

Lemma calculate_greeks_delta_bounds_witness :
  0 <= delta (calculate_greeks 100 105 (30 / 365) 0.05 0.3 "call") <= 1
  /\ -1 <= delta (calculate_greeks 100 105 (30 / 365) 0.05 0.3 "put") <= 0.
Proof. apply calculate_greeks_delta_bounds; lra. Defined.

(** * The spread constructor *)

(** C4, as the code has it: the constructor keeps the CALL contracts whose
    strike is above the spot, orders them by ascending strike, and emits
    exactly the neighbours [(i, i + 1)] of that order whose width is at most
    5, the lower strike as the short leg; so no emitted pair has
    [short.strike > long.strike]. *)
Theorem spread_pairs_spec (spot : R) (cs : list Contract) :
  let calls := calls_above_price spot cs in
  calls ≡ₚ filter (λ c, contract_type c = "CALL" ∧ strike_price c > spot) cs
  ∧ StronglySorted by_strike calls
  ∧ (∀ short long,
       (short, long) ∈ spread_pairs spot cs ↔
       (∃ i : nat, calls !! i = Some short ∧ calls !! S i = Some long)
       ∧ strike_price long - strike_price short <= 5)
  ∧ (∀ short long,
       (short, long) ∈ spread_pairs spot cs →
       strike_price short <= strike_price long).
Proof.
  cbv zeta. split; [apply calls_above_price_perm |].
  assert (Hsorted : StronglySorted by_strike (calls_above_price spot cs)).
  { apply stable_sort_is_sorted; [apply by_strike_total | apply by_strike_trans]. }
  split; [exact Hsorted |]. split.
  - intros short long. unfold spread_pairs.
    rewrite list_elem_of_filter, elem_of_adjacent_pairs.
    unfold within_width. cbn. split; intros [H1 H2]; split; try done; lra.
  - intros short long. unfold spread_pairs.
    rewrite list_elem_of_filter. intros [_ Hin].
    exact (adjacent_pairs_sorted by_strike _ _ _ Hsorted Hin).
Qed.

(** C4, against the strict order the claim states: two calls listed at the
    same strike are neighbours in the sorted order, their width 0 passes the
    width test, and the pair is emitted with [short.strike >= long.strike]. *)
Lemma spread_pairs_equal_strikes :
  (twin_short, twin_long) ∈ spread_pairs 100 [twin_short; twin_long]
  ∧ strike_price twin_short >= strike_price twin_long.
Proof.
  split; [| cbn; lra].
  unfold spread_pairs, calls_above_price.
  rewrite (filter_cons_True _ twin_short) by reflexivity.
  rewrite (filter_cons_True _ twin_long) by reflexivity.
  rewrite filter_nil.
  rewrite (filter_cons_True _ twin_short) by (cbn; lra).
  rewrite (filter_cons_True _ twin_long) by (cbn; lra).
  rewrite filter_nil.
  rewrite stable_sort_sorted.
  - cbn [adjacent_pairs]. rewrite filter_cons_True; [apply list_elem_of_here |].
    unfold within_width. cbn. lra.
  - apply SSorted_cons; [apply SSorted_cons; constructor |].
    apply Forall_cons. split; [| constructor]. unfold by_strike. cbn. lra.
Qed.

(** * The run *)

(** C1, as the code has it: the result is a function of the three datasets
    and of the clock reading stored in [timestamp]; two runs on the same
    datasets raise together or return results that agree on every field but
    [timestamp]. *)
Theorem result_determined_up_to_timestamp (now now' : string)
    (options_data : OptionsData) (risk_data : RiskData) (price_data : PriceData) :
  find_deals_with_delta_analysis now' options_data risk_data price_data
  = with_timestamp now'
      (find_deals_with_delta_analysis now options_data risk_data price_data).
Proof.
  unfold find_deals_with_delta_analysis.
  destruct (deltas_seen _); reflexivity.
Qed.

(** C1, against identical documents: two runs on the same ladder, one second
    apart, return different results. *)
Lemma reruns_differ_in_timestamp :
  find_deals_with_delta_analysis "2026-01-05T09:30:00"
    (ladder_options 1) (ladder_risk 1) (ladder_prices 1)
  ≠ find_deals_with_delta_analysis "2026-01-05T09:30:01"
      (ladder_options 1) (ladder_risk 1) (ladder_prices 1).
Proof.
  destruct (ladder_run "2026-01-05T09:30:00" 1 ltac:(lia)) as (r1 & -> & H1 & _).
  destruct (ladder_run "2026-01-05T09:30:01" 1 ltac:(lia)) as (r2 & -> & H2 & _).
  intros [= ->]. rewrite H1 in H2. discriminate.
Qed.

(** C2, as the code has it: each of the three lists is sorted by descending
    probability of profit; the result carries the first list only, cut to its
    first 25 entries, and reports all three lists by their full lengths. *)
Theorem ranked_lists_sorted_and_reported (now : string)
    (options_data : OptionsData) (risk_data : RiskData) (price_data : PriceData)
    (res : Result) :
  find_deals_with_delta_analysis now options_data risk_data price_data
  = Return res →
  let no_delta := ranked_no_delta options_data risk_data price_data in
  let loose := ranked_loose_delta options_data risk_data price_data in
  let strict := ranked_strict_delta options_data risk_data price_data in
  (StronglySorted by_probability_desc no_delta
   ∧ StronglySorted by_probability_desc loose
   ∧ StronglySorted by_probability_desc strict)
  ∧ (best_deals res = take 25 no_delta
     ∧ StronglySorted by_probability_desc (best_deals res)
     ∧ (length (best_deals res) <= 25)%nat)
  ∧ (total_opportunities res = length no_delta
     ∧ no_delta_filter (delta_analysis res) = length no_delta
     ∧ loose_delta_filter (delta_analysis res) = length loose
     ∧ strict_delta_filter (delta_analysis res) = length strict).
Proof.
  unfold find_deals_with_delta_analysis.
  destruct (deltas_seen _); [discriminate |]. intros [= <-]. cbv zeta.
  split; [repeat split; apply ranked_sorted |].
  split; [| done]. cbn [best_deals].
  split; [done |]. split.
  - apply StronglySorted_take, ranked_sorted.
  - rewrite length_take. lia.
Qed.

Lemma ranked_lists_sorted_and_reported_witness :
  ∃ res,
    find_deals_with_delta_analysis "2026-01-05T09:30:00"
      (ladder_options 1) (ladder_risk 1) (ladder_prices 1) = Return res
    ∧ best_deals res
      = take 25 (ranked_no_delta (ladder_options 1) (ladder_risk 1)
                   (ladder_prices 1))
    ∧ loose_delta_filter (delta_analysis res)
      = length (ranked_loose_delta (ladder_options 1) (ladder_risk 1)
                  (ladder_prices 1)).
Proof.
  destruct (ladder_run "2026-01-05T09:30:00" 1 ltac:(lia)) as (res & Hres & _).
  exists res. split; [exact Hres |].
  destruct (ranked_lists_sorted_and_reported _ _ _ _ _ Hres)
    as (_ & (Hbest & _) & (_ & _ & Hloose & _)).
  split; assumption.
Defined.

(** C2, against the truncation of every view: on a ladder of 26 pairs the
    result reports 26 spreads under the loose and under the strict delta
    filter, more than the 25 the claim allows a view. *)
Lemma delta_views_not_truncated :
  ∃ res,
    find_deals_with_delta_analysis "2026-01-05T09:30:00"
      (ladder_options 26) (ladder_risk 26) (ladder_prices 26) = Return res
    ∧ (25 < loose_delta_filter (delta_analysis res))%nat
    ∧ (25 < strict_delta_filter (delta_analysis res))%nat.
Proof.
  destruct (ladder_run "2026-01-05T09:30:00" 26 ltac:(lia))
    as (res & Hres & _ & _ & Hl & Hs).
  exists res. rewrite Hl, Hs. split; [exact Hres | lia].
Qed.

(** C3: the strict list lies within the loose list and the loose list within
    the unconstrained one, by the bounds 0.2 and 0.5 on the absolute spread
    delta; no spread of any list has ROI at most 10 or probability of profit
    at most 66. *)
Theorem ranked_lists_nested (options_data : OptionsData) (risk_data : RiskData)
    (price_data : PriceData) (s : Spread) :
  let no_delta := ranked_no_delta options_data risk_data price_data in
  let loose := ranked_loose_delta options_data risk_data price_data in
  let strict := ranked_strict_delta options_data risk_data price_data in
  (s ∈ strict → s ∈ loose ∧ Rabs (spread_delta s) <= 0.2)
  ∧ (s ∈ loose → s ∈ no_delta ∧ Rabs (spread_delta s) <= 0.5)
  ∧ (s ∈ no_delta → ¬ (roi_percent s <= 10 ∨ probability_of_profit s <= 66)).
Proof.
  cbv zeta.
  rewrite ranked_strict_delta_elem, ranked_loose_delta_elem.
  unfold strict_delta, loose_delta. split; [| split].
  - intros [Hn Hd]. split; [split; [exact Hn | lra] | apply Rabs_le; lra].
  - intros [Hn Hd]. split; [exact Hn | apply Rabs_le; lra].
  - intros Hs. apply ranked_no_delta_elem in Hs as (c & _ & Hc).
    unfold verdict in Hc.
    destruct (examine_pair_accepted_lookups _ _ _ _ _ _ _
                ltac:(rewrite Hc; discriminate)) as (sp & lp & sg & lg & H1 & H2 & H3 & H4).
    destruct (examine_pair_accepted _ _ _ _ _ _ _ _ _ _ _ H1 H2 H3 H4 s Hc)
      as (_ & _ & [Hroi Hpop] & _).
    lra.
Qed.

Lemma ranked_lists_nested_witness :
  ∃ s,
    s ∈ ranked_strict_delta (ladder_options 1) (ladder_risk 1) (ladder_prices 1)
    ∧ s ∈ ranked_loose_delta (ladder_options 1) (ladder_risk 1) (ladder_prices 1)
    ∧ s ∈ ranked_no_delta (ladder_options 1) (ladder_risk 1) (ladder_prices 1)
    ∧ ¬ (roi_percent s <= 10 ∨ probability_of_profit s <= 66).
Proof.
  destruct (ladder_strict_member 1 ltac:(lia)) as [s Hs].
  exists s.
  destruct (ranked_lists_nested (ladder_options 1) (ladder_risk 1)
              (ladder_prices 1) s) as (H1 & H2 & H3).
  destruct (H1 Hs) as [Hl _]. destruct (H2 Hl) as [Hn _].
  repeat split; [exact Hs | exact Hl | exact Hn | exact (H3 Hn)].
Defined.

(** C8: the probability of profit of every spread that survives is 100 times
    [probability_otm] at the spot, the strike of the short leg, the time to
    expiry and the mean of the implied volatilities of the two legs, for a
    call; the strike of the long leg does not enter. *)
Theorem probability_of_profit_from_short_leg (options_data : OptionsData)
    (risk_data : RiskData) (price_data : PriceData) (s : Spread) :
  s ∈ ranked_no_delta options_data risk_data price_data →
  ∃ c short_greek_data long_greek_data,
    c ∈ candidates options_data
    ∧ verdict risk_data price_data c = Accepted s
    ∧ make_greek_lookup risk_data !! streamer_symbol (short_call c)
      = Some short_greek_data
    ∧ make_greek_lookup risk_data !! streamer_symbol (long_call c)
      = Some long_greek_data
    ∧ short_strike s = strike_price (short_call c)
    ∧ avg_implied_volatility s
      = (implied_volatility short_greek_data
         + implied_volatility long_greek_data) / 2
    ∧ probability_of_profit s
      = probability_otm default_calculator (candidate_stock_price c)
          (strike_price (short_call c))
          (IZR (days_until_expires (short_call c)) / 365)
          ((implied_volatility short_greek_data
            + implied_volatility long_greek_data) / 2)
          "call"
        * 100.
Proof.
  intros Hs. apply ranked_no_delta_elem in Hs as (c & Hin & Hc).
  pose proof Hc as Hc'. unfold verdict in Hc'.
  destruct (examine_pair_accepted_lookups _ _ _ _ _ _ _
              ltac:(rewrite Hc'; discriminate))
    as (sp & lp & sg & lg & H1 & H2 & H3 & H4).
  destruct (examine_pair_accepted _ _ _ _ _ _ _ _ _ _ _ H1 H2 H3 H4 s Hc')
    as (_ & (Hpop & Hiv & _) & _ & (_ & Hstrike & _)).
  exists c, sg, lg. repeat split; assumption.
Qed.

Lemma probability_of_profit_from_short_leg_witness :
  ∃ s c short_greek_data long_greek_data,
    s ∈ ranked_no_delta (ladder_options 1) (ladder_risk 1) (ladder_prices 1)
    ∧ c ∈ candidates (ladder_options 1)
    ∧ make_greek_lookup (ladder_risk 1) !! streamer_symbol (short_call c)
      = Some short_greek_data
    ∧ make_greek_lookup (ladder_risk 1) !! streamer_symbol (long_call c)
      = Some long_greek_data
    ∧ probability_of_profit s
      = probability_otm default_calculator (candidate_stock_price c)
          (strike_price (short_call c))
          (IZR (days_until_expires (short_call c)) / 365)
          ((implied_volatility short_greek_data
            + implied_volatility long_greek_data) / 2)
          "call"
        * 100.
Proof.
  destruct (ladder_strict_member 1 ltac:(lia)) as [s Hs].
  apply ranked_strict_delta_elem in Hs as [Hs _].
  destruct (probability_of_profit_from_short_leg _ _ _ s Hs)
    as (c & sg & lg & Hc & _ & Hsg & Hlg & _ & _ & Hpop).
  exists s, c, sg, lg. repeat split; assumption.
Defined.

(** C9, where the code departs from it: when every candidate of a run leaves
    the loop body before the pricing (a missing lookup, an expired contract,
    a non-positive quote or credit), [deltas_seen] stays empty and the run
    raises [ValueError] at line 246 instead of producing its result. *)
Theorem run_of_skipped_candidates_raises (now : string)
    (options_data : OptionsData) (risk_data : RiskData) (price_data : PriceData) :
  (∀ c, c ∈ candidates options_data → verdict risk_data price_data c = Skipped) →
  find_deals_with_delta_analysis now options_data risk_data price_data
  = Raise ValueError.
Proof.
  intros Hskip. unfold find_deals_with_delta_analysis.
  rewrite scan_all_deltas_seen, all_skipped; [done |].
  apply Forall_forall. intros v Hv.
  apply list_elem_of_fmap in Hv as (c & -> & Hc). by apply Hskip.
Qed.

Lemma run_of_skipped_candidates_raises_witness :
  candidates (ladder_options 1) = [ladder_candidate 0]
  ∧ find_deals_with_delta_analysis "2026-01-05T09:30:00"
      (ladder_options 1) (ladder_risk 1) no_prices
    = Raise ValueError.
Proof.
  split; [apply (ladder_candidates 1) |].
  apply run_of_skipped_candidates_raises.
  intros c _. apply unquoted_ladder_skipped.
Defined.

(** C10: every spread of the three lists was built from a candidate whose
    short bid, long ask and time to expiry [days / 365] are positive, its
    probability of profit computed at that positive time; and every
    candidate the loop body prices at all has them positive, so one with a
    positive credit and a non-positive long ask is skipped. *)
Theorem priced_candidates_have_positive_quotes (options_data : OptionsData)
    (risk_data : RiskData) (price_data : PriceData) :
  let positive (c : Candidate) : Prop :=
    ∃ short_price_data long_price_data,
      make_price_lookup price_data !! streamer_symbol (short_call c)
      = Some short_price_data
      ∧ make_price_lookup price_data !! streamer_symbol (long_call c)
        = Some long_price_data
      ∧ 0 < what_buyers_pay short_price_data
      ∧ 0 < what_sellers_want long_price_data
      ∧ 0 < IZR (days_until_expires (short_call c)) / 365 in
  (∀ s,
     s ∈ ranked_no_delta options_data risk_data price_data
     ∨ s ∈ ranked_loose_delta options_data risk_data price_data
     ∨ s ∈ ranked_strict_delta options_data risk_data price_data →
     ∃ c, c ∈ candidates options_data
          ∧ verdict risk_data price_data c = Accepted s
          ∧ days_to_expiration s = days_until_expires (short_call c)
          ∧ positive c)
  ∧ (∀ c, verdict risk_data price_data c ≠ Skipped → positive c).
Proof.
  cbv zeta.
  assert (Hpriced : ∀ c, verdict risk_data price_data c ≠ Skipped →
    ∃ sp lp,
      make_price_lookup price_data !! streamer_symbol (short_call c) = Some sp
      ∧ make_price_lookup price_data !! streamer_symbol (long_call c) = Some lp
      ∧ 0 < what_buyers_pay sp ∧ 0 < what_sellers_want lp
      ∧ 0 < IZR (days_until_expires (short_call c)) / 365).
  { intros c Hc. unfold verdict in Hc.
    destruct (examine_pair_accepted_lookups _ _ _ _ _ _ _ Hc)
      as (sp & lp & sg & lg & H1 & H2 & H3 & H4).
    exists sp, lp. split; [exact H1 |]. split; [exact H2 |].
    destruct (Rlt_dec 0 (what_buyers_pay sp)) as [Hb | Hb];
      [| exfalso; apply Hc;
         apply (examine_pair_unpriced _ _ _ _ _ _ _ _ _ _ _ H1 H2 H3 H4); lra].
    destruct (Rlt_dec 0 (what_sellers_want lp)) as [Ha | Ha];
      [| exfalso; apply Hc;
         apply (examine_pair_unpriced _ _ _ _ _ _ _ _ _ _ _ H1 H2 H3 H4); lra].
    destruct (Rlt_dec 0 (IZR (days_until_expires (short_call c)) / 365))
      as [HT | HT];
      [| exfalso; apply Hc;
         apply (examine_pair_unpriced _ _ _ _ _ _ _ _ _ _ _ H1 H2 H3 H4); lra].
    done. }
  split; [| exact Hpriced].
  intros s Hs.
  assert (Hn : s ∈ ranked_no_delta options_data risk_data price_data).
  { destruct Hs as [Hs | [Hs | Hs]]; [exact Hs | |].
    - by apply ranked_loose_delta_elem in Hs as [Hs _].
    - by apply ranked_strict_delta_elem in Hs as [Hs _]. }
  apply ranked_no_delta_elem in Hn as (c & Hin & Hc).
  exists c. split; [exact Hin |]. split; [exact Hc |].
  split; [| apply Hpriced; rewrite Hc; discriminate].
  pose proof Hc as Hc'. unfold verdict in Hc'.
  destruct (examine_pair_accepted_lookups _ _ _ _ _ _ _
              ltac:(rewrite Hc'; discriminate))
    as (sp & lp & sg & lg & H1 & H2 & H3 & H4).
  destruct (examine_pair_accepted _ _ _ _ _ _ _ _ _ _ _ H1 H2 H3 H4 s Hc')
    as (_ & _ & _ & (_ & _ & _ & Hdays & _)).
  exact Hdays.
Qed.

Lemma priced_candidates_have_positive_quotes_witness :
  ∃ s c,
    s ∈ ranked_strict_delta (ladder_options 1) (ladder_risk 1) (ladder_prices 1)
    ∧ c ∈ candidates (ladder_options 1)
    ∧ verdict (ladder_risk 1) (ladder_prices 1) c = Accepted s
    ∧ 0 < IZR (days_to_expiration s) / 365.
Proof.
  destruct (ladder_strict_member 1 ltac:(lia)) as [s Hs].
  destruct (priced_candidates_have_positive_quotes (ladder_options 1)
              (ladder_risk 1) (ladder_prices 1)) as [Hlists _].
  destruct (Hlists s (or_intror (or_intror Hs)))
    as (c & Hc & Hv & Hdays & sp & lp & _ & _ & _ & _ & HT).
  exists s, c. rewrite Hdays. repeat split; assumption.
Defined.

(** the case C10 names: short bid 1.50 and long ask 0 give a credit of 1.50,
    and the pair is skipped *)
Example free_long_leg_skipped :
  verdict free_long_risk free_long_prices
    {| candidate_company := "XYZ"; candidate_stock_price := 100;
       short_call := free_short; long_call := free_long |}
  = Skipped.
Proof.
  unfold verdict. cbn [candidate_company candidate_stock_price short_call long_call].
  eapply (examine_pair_unpriced default_calculator
            (make_greek_lookup free_long_risk)
            (make_price_lookup free_long_prices));
    [reflexivity | reflexivity | reflexivity | reflexivity |].
  cbn. lra.
Qed.

(** * Further properties of the calculator *)


Lemma moneyness_otm_range (S K : R) (option_type : string) :
  0 <= moneyness_otm S K option_type <= 1.
Proof. unfold moneyness_otm. case_decide; lra. Qed.

Lemma probability_otm_in_unit (self : BlackScholesCalculator)
    (S K T sigma : R) (option_type : string) :
  0 <= probability_otm self S K T sigma option_type <= 1.
Proof.
  unfold probability_otm.
  destruct (decide (T <= 0)); [apply moneyness_otm_range |].
  destruct (decide (sigma <= 0)); [apply moneyness_otm_range |].
  cbv zeta. destruct (decide (option_type = "call")); apply norm_cdf_range.
Qed.




(** X3: in the degenerate case ([T <= 0] or [sigma <= 0]) the two probabilities
    are 0 or 1 by moneyness and add up to 1 only off the money: at
    [S = K] the call and the put both get probability 0. *)
Theorem probability_otm_expired (self : BlackScholesCalculator)
    (S K T sigma : R) :
  T <= 0 ∨ sigma <= 0 →
  probability_otm self S K T sigma "call" = (if decide (S < K) then 1 else 0)
  ∧ probability_otm self S K T sigma "put" = (if decide (S > K) then 1 else 0)
  ∧ (S = K →
     probability_otm self S K T sigma "call" = 0
     ∧ probability_otm self S K T sigma "put" = 0).
Proof.
  intros Hdeg.
  assert (Hm : ∀ ty, probability_otm self S K T sigma ty = moneyness_otm S K ty).
  { intros ty. unfold probability_otm.
    destruct (decide (T <= 0)); [done |].
    destruct (decide (sigma <= 0)); [done | lra]. }
  rewrite !Hm. unfold moneyness_otm.
  split; [| split].
  - destruct (decide (S < K)) as [H | H].
    + apply decide_True. left. done.
    + apply decide_False. intros [[_ H'] | [H' _]]; [done | discriminate].
  - destruct (decide (S > K)) as [H | H].
    + apply decide_True. right. done.
    + apply decide_False. intros [[H' _] | [_ H']]; [discriminate | done].
  - intros ->. split; apply decide_False; intros [[_ H] | [_ H]]; lra.
Qed.

Lemma probability_otm_expired_witness :
  probability_otm default_calculator 100 100 0 0.3 "call" = 0
  ∧ probability_otm default_calculator 100 100 0 0.3 "put" = 0.
Proof.
  apply (probability_otm_expired default_calculator 100 100 0 0.3);
    [lra | reflexivity].
Defined.



Lemma calculate_greeks_regular (S K T r sigma : R) (option_type : string) :
  0 < T → 0 < sigma →
  calculate_greeks S K T r sigma option_type =
  let d1 := (ln (S / K) + (r + 0.5 * sigma ^ 2) * T) / (sigma * sqrt T) in
  let d2 := d1 - sigma * sqrt T in
  let gamma := norm_pdf d1 / (S * sigma * sqrt T) in
  let vega := S * norm_pdf d1 * sqrt T / 100 in
  if decide (option_type = "call") then
    {| delta := norm_cdf d1;
       theta := (- S * norm_pdf d1 * sigma / (2 * sqrt T)
                 - r * K * exp (- r * T) * norm_cdf d2) / 365;
       gamma := gamma; vega := vega |}
  else
    {| delta := - norm_cdf (- d1);
       theta := (- S * norm_pdf d1 * sigma / (2 * sqrt T)
                 + r * K * exp (- r * T) * norm_cdf (- d2)) / 365;
       gamma := gamma; vega := vega |}.
Proof.
  intros HT Hs. unfold calculate_greeks.
  rewrite !decide_False by lra. reflexivity.
Qed.





Lemma call_delta_antitone (S T r sigma K1 K2 : R) :
  0 < S → 0 < T → 0 < sigma → 0 < K1 → K1 <= K2 →
  delta (calculate_greeks S K2 T r sigma "call")
  <= delta (calculate_greeks S K1 T r sigma "call").
Proof.
  intros HS HT Hs HK1 HK.
  rewrite !calculate_greeks_regular by assumption. cbv zeta.
  destruct (decide ("call" = "call")); [| done]. cbn [delta].
  apply norm_cdf_mono, d2_antitone; assumption.
Qed.

(** X7: with spot, time, rate and volatility fixed, the delta of a call does not
    grow with the strike: the further out of the money, the smaller the
    delta. *)
Theorem call_delta_antitone_in_strike (S T r sigma K1 K2 : R) :
  0 < S → 0 < T → 0 < sigma → 0 < K1 → K1 <= K2 →
  delta (calculate_greeks S K2 T r sigma "call")
  <= delta (calculate_greeks S K1 T r sigma "call").
Proof. apply call_delta_antitone. Qed.

Lemma call_delta_antitone_in_strike_witness :
  delta (calculate_greeks 100 108 (30 / 365) 0.05 0.3 "call")
  <= delta (calculate_greeks 100 105 (30 / 365) 0.05 0.3 "call").
Proof. apply call_delta_antitone_in_strike; lra. Defined.

(** * Further properties of the run *)

Lemma elem_of_spread_pairs (spot : R) (cs : list Contract) (short long : Contract) :
  (short, long) ∈ spread_pairs spot cs →
  (short ∈ cs ∧ long ∈ cs)
  ∧ (contract_type short = "CALL" ∧ contract_type long = "CALL")
  ∧ (spot < strike_price short ∧ strike_price short <= strike_price long
     ∧ strike_price long - strike_price short <= 5).
Proof.
  unfold spread_pairs. rewrite list_elem_of_filter. intros [Hw Hadj].
  assert (Hsorted : StronglySorted by_strike (calls_above_price spot cs)).
  { apply stable_sort_is_sorted; [apply by_strike_total | apply by_strike_trans]. }
  pose proof (adjacent_pairs_sorted by_strike _ _ _ Hsorted Hadj) as Hle.
  apply elem_of_adjacent_pairs in Hadj as (i & Hi & Hj).
  apply list_elem_of_lookup_2 in Hi, Hj.
  rewrite calls_above_price_perm in Hi, Hj.
  apply list_elem_of_filter in Hi as [[Hc1 Hs1] Hin1].
  apply list_elem_of_filter in Hj as [[Hc2 Hs2] Hin2].
  unfold within_width in Hw. cbn in Hw. unfold by_strike in Hle.
  repeat split; try done; lra.
Qed.

Lemma examine_pair_accepted_labels (bs_calc : BlackScholesCalculator)
    (greek_lookup : gmap string GreekRow) (price_lookup : gmap string PriceRow)
    (co : string) (spot : R) (short long : Contract) (s : Spread) :
  examine_pair bs_calc greek_lookup price_lookup co spot short long = Accepted s →
  delta_interpretation s = interpret_delta (spread_delta s)
  ∧ explanation s
    = {| collect := credit_collected s;
         pop_percent := probability_of_profit s;
         stays_below_company := company s;
         stays_below_strike := short_strike s |}.
Proof.
  unfold examine_pair.
  repeat match goal with |- context [match ?m !! ?k with _ => _ end] =>
    destruct (m !! k) end; try discriminate.
  repeat case_decide; try discriminate; intros [= <-]; split; reflexivity.
Qed.

(** what the loops know of a listed spread *)
Lemma listed_spread_source (options_data : OptionsData) (risk_data : RiskData)
    (price_data : PriceData) (s : Spread) :
  s ∈ ranked_no_delta options_data risk_data price_data →
  ∃ c cs short_price_data long_price_data short_greek_data long_greek_data,
    (short_call c, long_call c) ∈ spread_pairs (candidate_stock_price c) cs
    ∧ make_price_lookup price_data !! streamer_symbol (short_call c)
      = Some short_price_data
    ∧ make_price_lookup price_data !! streamer_symbol (long_call c)
      = Some long_price_data
    ∧ make_greek_lookup risk_data !! streamer_symbol (short_call c)
      = Some short_greek_data
    ∧ make_greek_lookup risk_data !! streamer_symbol (long_call c)
      = Some long_greek_data
    ∧ examine_pair default_calculator (make_greek_lookup risk_data)
        (make_price_lookup price_data) (candidate_company c)
        (candidate_stock_price c) (short_call c) (long_call c) = Accepted s.
Proof.
  intros Hs. apply ranked_no_delta_elem in Hs as (c & Hin & Hc).
  apply elem_of_candidates in Hin
    as (entry & expiration & _ & _ & Hpair & _ & Hspot).
  unfold verdict in Hc.
  destruct (examine_pair_accepted_lookups _ _ _ _ _ _ _
              ltac:(rewrite Hc; discriminate))
    as (sp & lp & sg & lg & H1 & H2 & H3 & H4).
  exists c, (contracts expiration.2), sp, lp, sg, lg.
  rewrite <- Hspot in Hpair. done.
Qed.

(** X8: every listed spread is a bear call spread above the market: its short
    strike lies above the spot and strictly below its long strike, at most 5
    apart; its credit is positive and smaller than the width, its maximal
    risk is the rest of the width, the credit is more than one eleventh of
    the width (the ROI filter), and it has days left to expiry. *)
Theorem listed_spread_geometry (options_data : OptionsData)
    (risk_data : RiskData) (price_data : PriceData) (s : Spread) :
  s ∈ ranked_no_delta options_data risk_data price_data →
  let width := long_strike s - short_strike s in
  (spread_stock_price s < short_strike s ∧ short_strike s < long_strike s
   ∧ width <= 5)
  ∧ (0 < credit_collected s ∧ credit_collected s < width
     ∧ max_risk s = width - credit_collected s
     ∧ width < 11 * credit_collected s)
  ∧ roi_percent s = credit_collected s / max_risk s * 100
  ∧ (0 < days_to_expiration s)%Z.
Proof.
  intros Hs. cbv zeta.
  destruct (listed_spread_source _ _ _ s Hs)
    as (c & cs & sp & lp & sg & lg & Hpair & H1 & H2 & H3 & H4 & Hc).
  apply elem_of_spread_pairs in Hpair as (_ & _ & Hspot & Hle & Hw).
  destruct (examine_pair_accepted _ _ _ _ _ _ _ _ _ _ _ H1 H2 H3 H4 s Hc)
    as ((HT & _ & _ & Hcredit & Hrisk) & (_ & _ & Hroi & _) & (Hroi10 & _)
        & (_ & -> & -> & -> & -> & -> & ->)).
  set (credit := what_buyers_pay sp - what_sellers_want lp) in *.
  set (width := strike_price (long_call c) - strike_price (short_call c)) in *.
  assert (Hwidth : width < 11 * credit).
  { rewrite Hroi in Hroi10.
    assert (Hi : 0 < / (width - credit)) by (apply Rinv_0_lt_compat; lra).
    assert (He : (width - credit) * / (width - credit) = 1)
      by (apply Rinv_r; lra).
    unfold Rdiv in Hroi10. nra. }
  split; [subst width; lra |].
  split; [lra |]. split; [exact Hroi |].
  apply lt_IZR. lra.
Qed.

Lemma listed_spread_geometry_witness :
  ∃ s,
    s ∈ ranked_no_delta (ladder_options 1) (ladder_risk 1) (ladder_prices 1)
    ∧ short_strike s < long_strike s
    ∧ 0 < credit_collected s
    ∧ (0 < days_to_expiration s)%Z.
Proof.
  destruct (ladder_strict_member 1 ltac:(lia)) as [s Hs].
  apply ranked_strict_delta_elem in Hs as [Hs _].
  destruct (listed_spread_geometry _ _ _ s Hs)
    as ((_ & Hlt & _) & (Hc & _) & _ & Hd).
  exists s. repeat split; assumption.
Defined.

(** X9: every listed spread has a probability of profit above 66 and at most
    100, and a spread delta between -1 and 1. *)
Theorem listed_spread_probability_and_delta (options_data : OptionsData)
    (risk_data : RiskData) (price_data : PriceData) (s : Spread) :
  s ∈ ranked_no_delta options_data risk_data price_data →
  66 < probability_of_profit s <= 100 ∧ -1 <= spread_delta s <= 1.
Proof.
  intros Hs.
  destruct (listed_spread_source _ _ _ s Hs)
    as (c & cs & sp & lp & sg & lg & _ & H1 & H2 & H3 & H4 & Hc).
  destruct (examine_pair_accepted _ _ _ _ _ _ _ _ _ _ _ H1 H2 H3 H4 s Hc)
    as (_ & (Hpop & _ & _ & Hd) & (_ & Hpop66) & _).
  split.
  - split; [exact Hpop66 |]. rewrite Hpop.
    match goal with |- ?p * 100 <= 100 =>
      assert (0 <= p <= 1) by apply probability_otm_in_unit end.
    lra.
  - rewrite Hd.
    match goal with |- _ <= delta ?a - delta ?b <= _ =>
      destruct (calculate_greeks_delta_range
                  (candidate_stock_price c) (strike_price (short_call c))
                  (IZR (days_until_expires (short_call c)) / 365)
                  (risk_free_rate default_calculator)
                  (implied_volatility sg) "call") as [Ha _];
      destruct (calculate_greeks_delta_range
                  (candidate_stock_price c) (strike_price (long_call c))
                  (IZR (days_until_expires (short_call c)) / 365)
                  (risk_free_rate default_calculator)
                  (implied_volatility lg) "call") as [Hb _]
    end.
    specialize (Ha eq_refl). specialize (Hb eq_refl). lra.
Qed.

Lemma listed_spread_probability_and_delta_witness :
  ∃ s,
    s ∈ ranked_no_delta (ladder_options 1) (ladder_risk 1) (ladder_prices 1)
    ∧ 66 < probability_of_profit s <= 100 ∧ -1 <= spread_delta s <= 1.
Proof.
  destruct (ladder_strict_member 1 ltac:(lia)) as [s Hs].
  apply ranked_strict_delta_elem in Hs as [Hs _].
  exists s. split; [exact Hs |].
  exact (listed_spread_probability_and_delta _ _ _ s Hs).
Defined.

Lemma interpret_delta_cases (d : R) :
  (interpret_delta d = "Neutral" ↔ -0.2 <= d <= 0.2)
  ∧ (interpret_delta d = "Bullish" ↔ 0.2 < d)
  ∧ (interpret_delta d = "Bearish" ↔ d < -0.2).
Proof.
  unfold interpret_delta.
  assert (Habs : Rabs d <= 0.2 ↔ -0.2 <= d <= 0.2).
  { unfold Rabs. destruct (Rcase_abs d); split; lra. }
  destruct (decide (Rabs d <= 0.2)) as [H | H];
    [| destruct (decide (d > 0.2)) as [H' | H']];
    rewrite Habs in H;
    (split; [| split]); (split; [intros E; try discriminate E; lra | intros E; try done; lra]).
Qed.

(** X10: the label of a listed spread follows its delta alone: 'Neutral' exactly
    for the spreads of the strict list, 'Bullish' above 0.2 and 'Bearish'
    below -0.2; and the text fields of the explanation repeat the credit,
    the probability, the company and the short strike of the record. *)
Theorem delta_interpretation_of_listed_spread (options_data : OptionsData)
    (risk_data : RiskData) (price_data : PriceData) (s : Spread) :
  s ∈ ranked_no_delta options_data risk_data price_data →
  (delta_interpretation s = "Neutral"
   ↔ s ∈ ranked_strict_delta options_data risk_data price_data)
  ∧ (delta_interpretation s = "Bullish" ↔ 0.2 < spread_delta s)
  ∧ (delta_interpretation s = "Bearish" ↔ spread_delta s < -0.2)
  ∧ explanation s
    = {| collect := credit_collected s;
         pop_percent := probability_of_profit s;
         stays_below_company := company s;
         stays_below_strike := short_strike s |}.
Proof.
  intros Hs.
  destruct (listed_spread_source _ _ _ s Hs)
    as (c & cs & sp & lp & sg & lg & _ & _ & _ & _ & _ & Hc).
  apply examine_pair_accepted_labels in Hc as [-> ->].
  destruct (interpret_delta_cases (spread_delta s)) as (Hn & Hbull & Hbear).
  rewrite ranked_strict_delta_elem. unfold strict_delta.
  split; [| done]. rewrite Hn. split; [intros H; split; [done | lra] | intros [_ H]; lra].
Qed.

Lemma delta_interpretation_of_listed_spread_witness :
  ∃ s,
    s ∈ ranked_no_delta (ladder_options 1) (ladder_risk 1) (ladder_prices 1)
    ∧ delta_interpretation s = "Neutral".
Proof.
  destruct (ladder_strict_member 1 ltac:(lia)) as [s Hs].
  pose proof Hs as Hstrict.
  apply ranked_strict_delta_elem in Hs as [Hs _].
  exists s. split; [exact Hs |].
  destruct (delta_interpretation_of_listed_spread _ _ _ s Hs) as [Hn _].
  by apply Hn.
Defined.

(** X11: when the two legs of a candidate carry the same implied volatility and
    the spot is positive, the spread delta of the accepted spread is not
    negative (the short leg, nearer the money, has the larger delta), so the
    spread is never labelled 'Bearish'. *)
Theorem equal_volatility_spread_not_bearish (options_data : OptionsData)
    (risk_data : RiskData) (price_data : PriceData) (c : Candidate) (s : Spread)
    (short_greek_data long_greek_data : GreekRow) :
  c ∈ candidates options_data →
  verdict risk_data price_data c = Accepted s →
  make_greek_lookup risk_data !! streamer_symbol (short_call c)
  = Some short_greek_data →
  make_greek_lookup risk_data !! streamer_symbol (long_call c)
  = Some long_greek_data →
  implied_volatility short_greek_data = implied_volatility long_greek_data →
  0 < candidate_stock_price c →
  0 <= spread_delta s ∧ delta_interpretation s ≠ "Bearish".
Proof.
  intros Hin Hc Hsg Hlg Hiv Hspot.
  apply elem_of_candidates in Hin
    as (entry & expiration & _ & _ & Hpair & _ & Hsp).
  rewrite <- Hsp in Hpair.
  apply elem_of_spread_pairs in Hpair as (_ & _ & Habove & Hle & _).
  unfold verdict in Hc.
  destruct (examine_pair_accepted_lookups _ _ _ _ _ _ _
              ltac:(rewrite Hc; discriminate))
    as (sp & lp & sg & lg & H1 & H2 & H3 & H4).
  destruct (examine_pair_accepted _ _ _ _ _ _ _ _ _ _ _ H1 H2 H3 H4 s Hc)
    as ((HT & _) & (_ & _ & _ & Hd) & _).
  rewrite Hsg in H3. rewrite Hlg in H4.
  injection H3 as <-. injection H4 as <-.
  assert (Hpos : 0 <= spread_delta s).
  { rewrite Hd, Hiv.
    destruct (Rle_dec (implied_volatility long_greek_data) 0) as [Hz | Hz].
    - unfold calculate_greeks.
      rewrite !(decide_False (P := _ / 365 <= 0)) by lra.
      rewrite !(decide_True (P := implied_volatility _ <= 0)) by lra.
      cbn. lra.
    - pose proof (call_delta_antitone (candidate_stock_price c)
                    (IZR (days_until_expires (short_call c)) / 365)
                    (risk_free_rate default_calculator)
                    (implied_volatility long_greek_data)
                    (strike_price (short_call c)) (strike_price (long_call c))
                    ltac:(lra) ltac:(lra) ltac:(lra) ltac:(lra) ltac:(lra)).
      lra. }
  split; [exact Hpos |].
  apply examine_pair_accepted_labels in Hc as [-> _].
  destruct (interpret_delta_cases (spread_delta s)) as (_ & _ & Hbear).
  rewrite Hbear. lra.
Qed.

Lemma equal_volatility_spread_not_bearish_witness :
  ∃ s,
    verdict (ladder_risk 1) (ladder_prices 1) (ladder_candidate 0) = Accepted s
    ∧ 0 <= spread_delta s ∧ delta_interpretation s ≠ "Bearish".
Proof.
  destruct (ladder_verdict 1 0 ltac:(lia)) as (s & Hs & _).
  destruct (ladder_greek_lookup 1 0 ltac:(lia)) as (sg & Hsg & Hsiv).
  destruct (ladder_greek_lookup 1 1 ltac:(lia)) as (lg & Hlg & Hliv).
  exists s. split; [exact Hs |].
  apply (equal_volatility_spread_not_bearish (ladder_options 1) (ladder_risk 1)
           (ladder_prices 1) (ladder_candidate 0) s sg lg).
  - rewrite ladder_candidates. by left.
  - exact Hs.
  - exact Hsg.
  - exact Hlg.
  - by rewrite Hsiv, Hliv.
  - cbn. lra.
Defined.

(** ** More on the stable sort *)

Section StableSortOrder.
Context {A : Type} (before : A → A → Prop) `{!RelDecision before}.
Context (P : A → Prop) `{!∀ x, Decision (P x)}.

Lemma insert_sorted_first (x : A) (l : list A) :
  Forall (before x) l → insert_sorted before x l = x :: l.
Proof. intros [| y l' Hy _]; cbn; [done |]. by rewrite decide_True. Qed.

Lemma filter_insert_sorted_out (x : A) (l : list A) :
  ¬ P x → filter P (insert_sorted before x l) = filter P l.
Proof.
  intros Hx. induction l as [| y l IH]; cbn [insert_sorted].
  - by rewrite filter_cons_False.
  - destruct (decide (before x y)).
    + by rewrite (filter_cons_False _ x).
    + by rewrite !(filter_cons _ y), IH.
Qed.

(** an element inserted among its equals comes first of them *)
Lemma filter_insert_sorted_tie (x : A) (l : list A) :
  (∀ y, P y → before x y) → P x →
  filter P (insert_sorted before x l) = x :: filter P l.
Proof.
  intros Htie Hx. induction l as [| y l IH]; cbn [insert_sorted].
  - by rewrite filter_cons_True.
  - destruct (decide (before x y)) as [Hxy | Hxy].
    + by rewrite (filter_cons_True _ x).
    + assert (¬ P y) by (intros Hy; apply Hxy, Htie, Hy).
      by rewrite !(filter_cons_False _ y), IH.
Qed.

Lemma stable_sort_keeps_ties (l : list A) :
  (∀ x y, P x → P y → before x y) →
  filter P (stable_sort before l) = filter P l.
Proof.
  intros Htie. induction l as [| x l IH]; [done |].
  rewrite stable_sort_cons. destruct (decide (P x)) as [Hx | Hx].
  - rewrite filter_insert_sorted_tie, IH by eauto.
    by rewrite (filter_cons_True _ x).
  - rewrite filter_insert_sorted_out, IH by done.
    by rewrite (filter_cons_False _ x).
Qed.

Context (before_total : ∀ x y, before x y ∨ before y x).
Context (before_trans : ∀ x y z, before x y → before y z → before x z).

Lemma filter_insert_sorted_in (x : A) (l : list A) :
  StronglySorted before l → P x →
  filter P (insert_sorted before x l) = insert_sorted before x (filter P l).
Proof.
  intros Hl Hx. induction Hl as [| y l Hl IH Hy]; cbn [insert_sorted].
  - by rewrite filter_cons_True.
  - destruct (decide (before x y)) as [Hxy | Hxy].
    + rewrite (filter_cons_True _ x) by done.
      symmetry. apply insert_sorted_first.
      apply Forall_forall. intros z Hz.
      apply list_elem_of_filter in Hz as [_ Hz].
      apply elem_of_cons in Hz as [-> | Hz]; [done |].
      rewrite Forall_forall in Hy. eauto.
    + rewrite !(filter_cons _ y), IH.
      destruct (decide (P y)); [| done].
      cbn [insert_sorted]. by rewrite decide_False.
Qed.

(** sorting and filtering commute *)
Lemma stable_sort_filter (l : list A) :
  stable_sort before (filter P l) = filter P (stable_sort before l).
Proof.
  induction l as [| x l IH]; [done |].
  rewrite stable_sort_cons. destruct (decide (P x)) as [Hx | Hx].
  - rewrite filter_cons_True, stable_sort_cons, IH by done.
    symmetry. apply filter_insert_sorted_in; [| done].
    by apply stable_sort_is_sorted.
  - rewrite filter_cons_False, filter_insert_sorted_out by done. exact IH.
Qed.
End StableSortOrder.

(** X12: the loose ranking is the unconstrained ranking with the spreads outside
    the loose bound struck out, and the strict ranking is the loose ranking
    with the spreads outside the strict bound struck out: the three rankings
    list their common spreads in the same order. *)
Theorem ranked_delta_lists_are_filters (options_data : OptionsData)
    (risk_data : RiskData) (price_data : PriceData) :
  ranked_loose_delta options_data risk_data price_data
  = filter loose_delta (ranked_no_delta options_data risk_data price_data)
  ∧ ranked_strict_delta options_data risk_data price_data
    = filter strict_delta (ranked_loose_delta options_data risk_data price_data).
Proof.
  unfold ranked_loose_delta, ranked_strict_delta, ranked_no_delta.
  destruct (scan_all_filtered options_data risk_data price_data) as [-> ->].
  set (l := all_spreads_no_delta _).
  assert (Hloose : stable_sort by_probability_desc (filter loose_delta l)
                   = filter loose_delta (stable_sort by_probability_desc l)).
  { apply stable_sort_filter;
      [apply by_probability_desc_total | apply by_probability_desc_trans]. }
  split; [exact Hloose |].
  rewrite Hloose, list_filter_filter.
  rewrite (stable_sort_filter by_probability_desc strict_delta
             by_probability_desc_total by_probability_desc_trans).
  apply list_filter_iff. intros s. unfold strict_delta, loose_delta. lra.
Qed.

(** X13: spreads of equal probability of profit stand in each ranking in the
    order in which the loops found them (companies, then expirations, then
    ascending strikes). *)
Theorem ranking_keeps_loop_order_of_ties (options_data : OptionsData)
    (risk_data : RiskData) (price_data : PriceData) (p : R) :
  let st := scan_all options_data risk_data price_data in
  let tie (s : Spread) := probability_of_profit s = p in
  filter tie (ranked_no_delta options_data risk_data price_data)
  = filter tie (all_spreads_no_delta st)
  ∧ filter tie (ranked_loose_delta options_data risk_data price_data)
    = filter tie (all_spreads_loose_delta st)
  ∧ filter tie (ranked_strict_delta options_data risk_data price_data)
    = filter tie (all_spreads_strict_delta st).
Proof.
  cbv zeta. unfold ranked_no_delta, ranked_loose_delta, ranked_strict_delta.
  assert (Htie : ∀ x y : Spread,
            probability_of_profit x = p → probability_of_profit y = p →
            by_probability_desc x y).
  { intros x y Hx Hy. unfold by_probability_desc. lra. }
  repeat split; by apply stable_sort_keeps_ties.
Qed.

Lemma omap_length_le {A B : Type} (f : A → option B) (l : list A) :
  (length (omap f l) <= length l)%nat.
Proof.
  induction l as [| x l IH]; cbn; [lia |]. destruct (f x); cbn; lia.
Qed.

(** X14: the counts of a result are ordered: strict <= loose <= unconstrained,
    the unconstrained count is [total_opportunities] and at most the number
    of candidates of the run, and [best_deals] holds the smaller of 25 and
    that count. *)
Theorem result_counts_ordered (now : string) (options_data : OptionsData)
    (risk_data : RiskData) (price_data : PriceData) (res : Result) :
  find_deals_with_delta_analysis now options_data risk_data price_data
  = Return res →
  (strict_delta_filter (delta_analysis res)
   <= loose_delta_filter (delta_analysis res)
   <= no_delta_filter (delta_analysis res))%nat
  ∧ no_delta_filter (delta_analysis res) = total_opportunities res
  ∧ (total_opportunities res <= length (candidates options_data))%nat
  ∧ length (best_deals res) = (25 `min` total_opportunities res)%nat.
Proof.
  unfold find_deals_with_delta_analysis.
  destruct (deltas_seen _); [discriminate |]. intros [= <-]. cbn.
  rewrite length_take, !length_stable_sort.
  destruct (scan_all_filtered options_data risk_data price_data) as [Hl Hs].
  rewrite Hl, Hs. set (found := all_spreads_no_delta _).
  assert (Hstrict : filter strict_delta found
                    = filter strict_delta (filter loose_delta found)).
  { rewrite list_filter_filter. apply list_filter_iff.
    intros s. unfold strict_delta, loose_delta. lra. }
  split; [| split; [done | split; [| done]]].
  - split; [rewrite Hstrict |]; apply length_filter.
  - subst found. rewrite scan_all_no_delta.
    etrans; [apply omap_length_le |]. by rewrite length_fmap.
Qed.

Lemma result_counts_ordered_witness :
  ∃ res,
    find_deals_with_delta_analysis "2026-01-05T09:30:00"
      (ladder_options 26) (ladder_risk 26) (ladder_prices 26) = Return res
    ∧ length (best_deals res) = 25%nat
    ∧ total_opportunities res = 26%nat.
Proof.
  destruct (ladder_run "2026-01-05T09:30:00" 26 ltac:(lia))
    as (res & Hres & _ & Htotal & _).
  exists res. split; [exact Hres |].
  destruct (result_counts_ordered _ _ _ _ _ Hres) as (_ & _ & _ & Hbest).
  rewrite Hbest, Htotal. done.
Defined.

(** X15: [best_deals] is the head of the unconstrained ranking: no spread left
    out of it has a higher probability of profit than a spread in it, and
    its first entry, the one the summary calls the best deal, has the
    highest probability of profit of all accepted spreads. *)
Theorem best_deals_are_the_top (now : string) (options_data : OptionsData)
    (risk_data : RiskData) (price_data : PriceData) (res : Result) :
  find_deals_with_delta_analysis now options_data risk_data price_data
  = Return res →
  let ranked := ranked_no_delta options_data risk_data price_data in
  ranked = best_deals res ++ drop 25 ranked
  ∧ (∀ s s', s ∈ best_deals res → s' ∈ drop 25 ranked →
       probability_of_profit s' <= probability_of_profit s)
  ∧ (∀ s s', head (best_deals res) = Some s → s' ∈ ranked →
       probability_of_profit s' <= probability_of_profit s).
Proof.
  unfold find_deals_with_delta_analysis.
  destruct (deltas_seen _); [discriminate |]. intros [= <-]. cbv zeta.
  cbn [best_deals]. fold (ranked_no_delta options_data risk_data price_data).
  set (ranked := ranked_no_delta options_data risk_data price_data).
  assert (Hsorted : StronglySorted by_probability_desc ranked)
    by apply ranked_sorted.
  clearbody ranked.
  split; [by rewrite take_drop |]. split.
  - intros s s' Hs Hs'. rewrite <- (take_drop 25 ranked) in Hsorted.
    exact (StronglySorted_app_1_elem_of _ _ _ _ _ Hsorted Hs Hs').
  - intros s s' Hhead Hs'.
    destruct ranked as [| s0 rest]; [by apply elem_of_nil in Hs' |].
    cbn in Hhead. injection Hhead as <-.
    apply StronglySorted_cons in Hsorted as [Hall _].
    apply elem_of_cons in Hs' as [-> | Hs'].
    + lra.
    + rewrite Forall_forall in Hall. exact (Hall _ Hs').
Qed.

Lemma best_deals_are_the_top_witness :
  ∃ res,
    find_deals_with_delta_analysis "2026-01-05T09:30:00"
      (ladder_options 26) (ladder_risk 26) (ladder_prices 26) = Return res
    ∧ ranked_no_delta (ladder_options 26) (ladder_risk 26) (ladder_prices 26)
      = best_deals res
        ++ drop 25 (ranked_no_delta (ladder_options 26) (ladder_risk 26)
                      (ladder_prices 26)).
Proof.
  destruct (ladder_run "2026-01-05T09:30:00" 26 ltac:(lia)) as (res & Hres & _).
  exists res. split; [exact Hres |].
  destruct (best_deals_are_the_top _ _ _ _ _ Hres) as [H _]. exact H.
Defined.

(** ** The delta statistics *)

Lemma track_delta_count (d : R) (stats : DeltaStats) :
  stats_count stats → stats_count (track_delta d stats).
Proof.
  intros (Hneg & Hneu & Hpos). unfold stats_count, track_delta.
  destruct (decide (d < -0.1)) as [H1 | H1];
    [| destruct (decide (-0.2 <= d ∧ d <= 0.2)) as [H2 | H2]];
    cbn [deltas_seen negative_deltas neutral_deltas positive_deltas];
    rewrite !filter_app, !length_app, <- Hneg, <- Hneu, <- Hpos;
    rewrite !(filter_cons _ d), !filter_nil;
    repeat case_decide; cbn [length]; try lra; repeat split; lia.
Qed.

Lemma record_verdict_count (st : Scan) (v : Verdict) :
  stats_count (delta_stats st) → stats_count (delta_stats (record_verdict st v)).
Proof.
  intros H. destruct v; cbn [record_verdict delta_stats];
    [done | by apply track_delta_count | by apply track_delta_count].
Qed.

Lemma record_verdicts_count (st : Scan) (vs : list Verdict) :
  stats_count (delta_stats st) →
  stats_count (delta_stats (foldl record_verdict st vs)).
Proof.
  revert st. induction vs as [| v vs IH]; intros st H; [done |].
  cbn [foldl]. by apply IH, record_verdict_count.
Qed.

Lemma three_way_count (l : list R) :
  (length (filter (λ d, d < -0.1)%R l)
   + length (filter (λ d, -0.1 <= d ∧ d <= 0.2)%R l)
   + length (filter (λ d, d > 0.2)%R l) = length l)%nat.
Proof.
  induction l as [| d l IH]; [done |].
  rewrite !(filter_cons _ d).
  repeat case_decide; cbn [length]; try (exfalso; lra); lia.
Qed.

(** X16: when the loops are over, [deltas_seen] holds one delta for every
    candidate that reached the pricing; [negative_deltas] counts the deltas
    below -0.1, [neutral_deltas] those from -0.1 to 0.2 (not from -0.2, since
    the first test takes the deltas below -0.1) and [positive_deltas] those
    above 0.2; the three counters add up to the number of deltas seen, which
    is at least the number of accepted spreads. *)
Theorem delta_stats_counts (options_data : OptionsData) (risk_data : RiskData)
    (price_data : PriceData) :
  let st := scan_all options_data risk_data price_data in
  let stats := delta_stats st in
  let seen := deltas_seen stats in
  seen = omap tracked_delta (verdict risk_data price_data <$> candidates options_data)
  ∧ negative_deltas stats = length (filter (λ d, d < -0.1) seen)
  ∧ neutral_deltas stats = length (filter (λ d, -0.1 <= d ∧ d <= 0.2) seen)
  ∧ positive_deltas stats = length (filter (λ d, d > 0.2) seen)
  ∧ (negative_deltas stats + neutral_deltas stats + positive_deltas stats
     = length seen)%nat
  ∧ (length (all_spreads_no_delta st) <= length seen)%nat.
Proof.
  cbv zeta. split; [apply scan_all_deltas_seen |].
  assert (Hcount : stats_count
            (delta_stats (scan_all options_data risk_data price_data))).
  { rewrite scan_all_verdicts. apply record_verdicts_count.
    repeat split. }
  destruct Hcount as (Hneg & Hneu & Hpos).
  split; [exact Hneg |]. split; [exact Hneu |]. split; [exact Hpos |].
  split.
  - rewrite Hneg, Hneu, Hpos. apply three_way_count.
  - rewrite scan_all_deltas_seen, scan_all_no_delta.
    induction (verdict risk_data price_data <$> candidates options_data)
      as [| v vs IH]; [done |].
    destruct v; cbn; lia.
Qed.

(** ** The lookups over whole datasets *)

Lemma last_filter_app {A : Type} (P : A → Prop) `{!∀ x, Decision (P x)}
    (l1 l2 : list A) :
  last (filter P (l1 ++ l2))
  = match last (filter P l2) with
    | Some x => Some x
    | None => last (filter P l1)
    end.
Proof. by rewrite filter_app, last_app. Qed.

Lemma price_lookup_from (entries : list (string * list PriceRow))
    (m : gmap string PriceRow) (name : string) :
  foldl (λ m entry, index_prices m entry.2) m entries !! name
  = match last (filter (λ row, price_contract_name row = name)
                  (entries ≫= snd)) with
    | Some row => Some row
    | None => m !! name
    end.
Proof.
  revert m. induction entries as [| entry entries IH]; intros m; [done |].
  cbn [foldl]. rewrite IH, bind_cons, last_filter_app, index_prices_lookup.
  by destruct (last (filter _ (entries ≫= snd))).
Qed.

Lemma greek_lookup_from (entries : list (string * list GreekRow))
    (m : gmap string GreekRow) (name : string) :
  foldl (λ m entry, index_greeks m entry.2) m entries !! name
  = match last (filter (λ row, greek_contract_name row = name)
                  (entries ≫= snd)) with
    | Some row => Some row
    | None => m !! name
    end.
Proof.
  revert m. induction entries as [| entry entries IH]; intros m; [done |].
  cbn [foldl]. rewrite IH, bind_cons, last_filter_app, index_greeks_lookup.
  by destruct (last (filter _ (entries ≫= snd))).
Qed.

(** X17: a lookup returns the last row of the dataset that carries the contract
    name, across companies, and nothing when no row carries it: a later row
    of the same name overrides an earlier one, whichever company lists it. *)
Theorem lookups_keep_the_last_row (risk_data : RiskData)
    (price_data : PriceData) (name : string) :
  make_price_lookup price_data !! name
  = last (filter (λ row, price_contract_name row = name)
            (all_price_rows price_data))
  ∧ make_greek_lookup risk_data !! name
    = last (filter (λ row, greek_contract_name row = name)
              (all_greek_rows risk_data)).
Proof.
  unfold make_price_lookup, make_greek_lookup, all_price_rows, all_greek_rows.
  rewrite price_lookup_from, greek_lookup_from, !lookup_empty.
  split; by destruct (last _).
Qed.

(** ** The candidates *)

Lemma length_adjacent_pairs {A : Type} (l : list A) :
  length (adjacent_pairs l) = pred (length l).
Proof.
  induction l as [| x l IH]; [done |].
  destruct l as [| y l]; [done |].
  change (adjacent_pairs (x :: y :: l)) with ((x, y) :: adjacent_pairs (y :: l)).
  cbn [length] in *. by rewrite IH.
Qed.

(** X18: an expiration with [n] calls above the spot yields at most [n - 1]
    candidate pairs, so none when it lists fewer than two such calls; puts
    and calls at or below the spot do not count. *)
Theorem candidate_count_bound (spot : R) (cs : list Contract) :
  let n := length (filter (λ c, contract_type c = "CALL" ∧ strike_price c > spot) cs) in
  (length (spread_pairs spot cs) <= pred n)%nat ∧ (n <= length cs)%nat.
Proof.
  cbv zeta. rewrite <- calls_above_price_perm. split.
  - unfold spread_pairs. etrans; [apply length_filter |].
    by rewrite length_adjacent_pairs.
  - rewrite calls_above_price_perm. apply length_filter.
Qed.

(** X19: the run returns a result exactly when at least one candidate reaches the
    pricing, whether or not any spread is accepted; otherwise it raises. *)
Theorem run_returns_iff_some_candidate_priced (now : string)
    (options_data : OptionsData) (risk_data : RiskData) (price_data : PriceData) :
  (∃ res,
     find_deals_with_delta_analysis now options_data risk_data price_data
     = Return res)
  ↔ (∃ c, c ∈ candidates options_data
          ∧ verdict risk_data price_data c ≠ Skipped).
Proof.
  unfold find_deals_with_delta_analysis. rewrite scan_all_deltas_seen.
  induction (candidates options_data) as [| c cs IH].
  - cbn. split; [intros [res H]; discriminate |].
    intros (c & Hc & _). by apply elem_of_nil in Hc.
  - rewrite fmap_cons. cbn [omap].
    destruct (verdict risk_data price_data c) as [| d | s] eqn:Hv;
      cbn [tracked_delta].
    + rewrite IH. split.
      * intros (c' & Hc' & Hv'). exists c'. split; [by right | done].
      * intros (c' & Hc' & Hv'). apply elem_of_cons in Hc' as [-> | Hc'];
          [done | by exists c'].
    + split; [intros _ | intros _; eexists; reflexivity].
      exists c. split; [by left |]. rewrite Hv. discriminate.
    + split; [intros _ | intros _; eexists; reflexivity].
      exists c. split; [by left |]. rewrite Hv. discriminate.
Qed.

Lemma unquoted_candidate_gap (n : nat) (c : Candidate) :
  data_gap (ladder_risk n) no_prices c.
Proof.
  unfold data_gap. cbv zeta. right. right.
  rewrite make_price_lookup_empty, lookup_empty. done.
Qed.

(** X20: a candidate with a data-completeness gap (a lookup missing, a credit or
    a maximal risk that is not positive) is never accepted: it adds no
    spread to any of the three lists. *)
Theorem gap_candidate_never_listed (risk_data : RiskData)
    (price_data : PriceData) (c : Candidate) (s : Spread) :
  data_gap risk_data price_data c →
  verdict risk_data price_data c ≠ Accepted s.
Proof.
  intros Hgap Hv. apply gap_candidate_not_accepted in Hgap.
  rewrite Hv in Hgap. discriminate.
Qed.

Lemma gap_candidate_never_listed_witness :
  accepted_spread (verdict (ladder_risk 1) no_prices (ladder_candidate 0)) = None.
Proof.
  destruct (verdict (ladder_risk 1) no_prices (ladder_candidate 0))
    as [| d | s] eqn:Hv; [reflexivity | reflexivity |].
  exfalso.
  exact (gap_candidate_never_listed _ _ _ s (unquoted_candidate_gap 1 _) Hv).
Defined.

Lemma candidates_app (l1 l2 : list (string * CompanyOptions)) :
  candidates {| options_by_company := l1 ++ l2 |}
  = candidates {| options_by_company := l1 |}
    ++ candidates {| options_by_company := l2 |}.
Proof. unfold candidates. cbn [options_by_company]. apply bind_app. Qed.

(** X21: companies are scanned independently of each other: the lists and the
    deltas seen for a chain of companies are those of its first part
    followed by those of its second part, under the same lookups. *)
Theorem companies_scanned_independently (l1 l2 : list (string * CompanyOptions))
    (risk_data : RiskData) (price_data : PriceData) :
  let scan l := scan_all {| options_by_company := l |} risk_data price_data in
  all_spreads_no_delta (scan (l1 ++ l2))
  = all_spreads_no_delta (scan l1) ++ all_spreads_no_delta (scan l2)
  ∧ all_spreads_loose_delta (scan (l1 ++ l2))
    = all_spreads_loose_delta (scan l1) ++ all_spreads_loose_delta (scan l2)
  ∧ all_spreads_strict_delta (scan (l1 ++ l2))
    = all_spreads_strict_delta (scan l1) ++ all_spreads_strict_delta (scan l2)
  ∧ deltas_seen (delta_stats (scan (l1 ++ l2)))
    = deltas_seen (delta_stats (scan l1)) ++ deltas_seen (delta_stats (scan l2)).
Proof.
  cbv zeta.
  assert (Hno : all_spreads_no_delta
                  (scan_all {| options_by_company := l1 ++ l2 |} risk_data price_data)
                = all_spreads_no_delta
                    (scan_all {| options_by_company := l1 |} risk_data price_data)
                  ++ all_spreads_no_delta
                       (scan_all {| options_by_company := l2 |} risk_data price_data)).
  { by rewrite !scan_all_no_delta, candidates_app, fmap_app, omap_app. }
  destruct (scan_all_filtered {| options_by_company := l1 ++ l2 |}
              risk_data price_data) as [-> ->].
  destruct (scan_all_filtered {| options_by_company := l1 |}
              risk_data price_data) as [-> ->].
  destruct (scan_all_filtered {| options_by_company := l2 |}
              risk_data price_data) as [-> ->].
  rewrite Hno, !filter_app.
  repeat split.
  by rewrite !scan_all_deltas_seen, candidates_app, fmap_app, omap_app.
Qed.

(** * The summary of [master.py] *)

Lemma collect_top_companies_spec (deals : list Spread)
    (companies_shown : gset string) (top : list Spread) :
  (∀ x, x ∈ companies_shown ↔ x ∈ company <$> top) →
  NoDup (company <$> top) →
  (length top < 3)%nat →
  let found := collect_top_companies deals companies_shown top in
  (length found <= 3)%nat
  ∧ NoDup (company <$> found)
  ∧ (∃ extra, found = top ++ extra ∧ extra `sublist_of` deals)
  ∧ ((length found < 3)%nat →
     ∀ deal, deal ∈ deals → company deal ∈ company <$> found).
Proof.
  revert companies_shown top.
  induction deals as [| deal rest IH]; intros shown top Hshown Hdup Hlen; cbv zeta.
  - cbn [collect_top_companies]. split; [lia |]. split; [done |].
    split; [exists []; by rewrite app_nil_r |].
    intros _ deal Hdeal. by apply elem_of_nil in Hdeal.
  - cbn [collect_top_companies]. cbv zeta.
    destruct (decide (company deal ∉ shown)) as [Hfresh | Hold].
    + assert (Hdup' : NoDup (company <$> top ++ [deal])).
      { rewrite fmap_app. apply NoDup_app. split; [done |]. split.
        - intros x Hx Hx'. apply list_elem_of_singleton in Hx' as ->.
          by apply Hfresh, Hshown.
        - apply NoDup_singleton. }
      assert (Hshown' : ∀ x, x ∈ {[company deal]} ∪ shown
                             ↔ x ∈ company <$> top ++ [deal]).
      { intros x. rewrite fmap_app, elem_of_app, elem_of_union, Hshown.
        cbn. rewrite list_elem_of_singleton, elem_of_singleton. tauto. }
      assert (Hlen' : length (top ++ [deal]) = S (length top))
        by (rewrite length_app; cbn [length]; lia).
      destruct (decide (3 <= length (top ++ [deal]))%nat) as [Hfull | Hroom].
      * split; [lia |]. split; [done |]. split; [| lia].
        exists [deal]. split; [done |]. apply sublist_skip, sublist_nil_l.
      * destruct (IH _ _ Hshown' Hdup' ltac:(lia))
          as (H1 & H2 & (extra & Hextra & Hsub) & H4).
        split; [done |]. split; [done |]. split.
        -- exists (deal :: extra). split; [| by apply sublist_skip].
           by rewrite Hextra, <- app_assoc.
        -- intros Hfew deal' Hdeal'.
           apply elem_of_cons in Hdeal' as [-> | Hdeal']; [| by apply H4].
           rewrite Hextra, !fmap_app, !elem_of_app. left. right.
           by apply list_elem_of_singleton.
    + destruct (decide (3 <= length top)%nat) as [Hfull | _]; [lia |].
      destruct (IH _ _ Hshown Hdup Hlen)
        as (H1 & H2 & (extra & Hextra & Hsub) & H4).
      split; [done |]. split; [done |]. split.
      * exists extra. split; [done | by apply sublist_cons].
      * intros Hfew deal' Hdeal'.
        apply elem_of_cons in Hdeal' as [-> | Hdeal']; [| by apply H4].
        rewrite Hextra, fmap_app, elem_of_app. left.
        apply Hshown. by apply dec_stable.
Qed.

(** X22: the top companies of the summary are at most three deals of pairwise
    different companies, taken in order from the first ten best deals and
    starting with the best deal itself; when fewer than three are shown,
    every company among those ten is shown. *)
Theorem top_companies_spec (best : list Spread) :
  let top := top_companies best in
  (length top <= 3)%nat
  ∧ NoDup (company <$> top)
  ∧ top `sublist_of` take 10 best
  ∧ head top = head best
  ∧ ((length top < 3)%nat →
     ∀ deal, deal ∈ take 10 best → company deal ∈ company <$> top).
Proof.
  cbv zeta. unfold top_companies.
  destruct (collect_top_companies_spec (take 10 best) ∅ [])
    as (H1 & H2 & (extra & Hextra & Hsub) & H4).
  { intros x. cbn. rewrite elem_of_nil, elem_of_empty. done. }
  { constructor. }
  { cbn. lia. }
  split; [done |]. split; [done |].
  split; [by rewrite Hextra |]. split; [| done].
  destruct best as [| deal rest]; [done |].
  change (take 10 (deal :: rest)) with (deal :: take 9 rest).
  cbn [collect_top_companies]. cbv zeta.
  destruct (decide (company deal ∉ (∅ : gset string))) as [_ | Hin];
    [| exfalso; apply Hin, not_elem_of_empty].
  cbn [app length].
  destruct (decide (3 <= 1)%nat) as [Hge | _]; [lia |].
  destruct (collect_top_companies_spec (take 9 rest)
              ({[company deal]} ∪ ∅) [deal])
    as (_ & _ & (extra' & -> & _) & _).
  - intros x. cbn.
    rewrite list_elem_of_singleton, elem_of_union, elem_of_singleton, elem_of_empty.
    tauto.
  - cbn. apply NoDup_singleton.
  - cbn. lia.
  - done.
Qed.

Lemma StronglySorted_sublist {A : Type} (R : A → A → Prop) (l1 l2 : list A) :
  l1 `sublist_of` l2 → StronglySorted R l2 → StronglySorted R l1.
Proof.
  induction 1 as [| x l1 l2 Hsub IH | x l1 l2 Hsub IH]; intros Hsorted.
  - constructor.
  - apply StronglySorted_cons in Hsorted as [Hall Hsorted].
    constructor; [by apply IH |].
    rewrite Forall_forall in Hall |- *. intros y Hy.
    eapply Hall, elem_of_sublist; [exact Hy | exact Hsub].
  - apply StronglySorted_cons in Hsorted as [_ Hsorted]. by apply IH.
Qed.

(** X23: the top companies the summary shows for a result are accepted spreads of
    the run, in descending order of probability of profit. *)
Theorem top_companies_of_result (now : string) (options_data : OptionsData)
    (risk_data : RiskData) (price_data : PriceData) (res : Result) :
  find_deals_with_delta_analysis now options_data risk_data price_data
  = Return res →
  StronglySorted by_probability_desc (top_companies (best_deals res))
  ∧ ∀ deal, deal ∈ top_companies (best_deals res) →
            deal ∈ ranked_no_delta options_data risk_data price_data.
Proof.
  unfold find_deals_with_delta_analysis.
  destruct (deltas_seen _); [discriminate |]. intros [= <-].
  cbn [best_deals]. fold (ranked_no_delta options_data risk_data price_data).
  set (ranked := ranked_no_delta options_data risk_data price_data).
  destruct (collect_top_companies_spec (take 10 (take 25 ranked)) ∅ [])
    as (_ & _ & (extra & Hextra & Hsub) & _).
  { intros x. cbn. rewrite elem_of_nil, elem_of_empty. done. }
  { constructor. }
  { cbn. lia. }
  fold (top_companies (take 25 ranked)) in Hextra. cbn [app] in Hextra.
  assert (Hsub' : top_companies (take 25 ranked) `sublist_of` ranked).
  { rewrite Hextra. etrans; [exact Hsub |].
    etrans; apply sublist_take. }
  split.
  - eapply StronglySorted_sublist; [exact Hsub' | apply ranked_sorted].
  - intros deal Hdeal. eapply elem_of_sublist; [exact Hdeal | exact Hsub'].
Qed.

Lemma top_companies_of_result_witness :
  ∃ res,
    find_deals_with_delta_analysis "2026-01-05T09:30:00"
      (ladder_options 26) (ladder_risk 26) (ladder_prices 26) = Return res
    ∧ StronglySorted by_probability_desc (top_companies (best_deals res)).
Proof.
  destruct (ladder_run "2026-01-05T09:30:00" 26 ltac:(lia)) as (res & Hres & _).
  exists res. split; [exact Hres |].
  destruct (top_companies_of_result _ _ _ _ _ Hres) as [H _]. exact H.
Defined.

(** ** A risk dataset without volatility *)

Lemma spread_pairs_two (spot : R) (a b : Contract) :
  contract_type a = "CALL" → contract_type b = "CALL" →
  spot < strike_price a → strike_price a <= strike_price b →
  strike_price b - strike_price a <= 5 →
  spread_pairs spot [a; b] = [(a, b)].
Proof.
  intros Ha Hb Hspot Hle Hw. unfold spread_pairs, calls_above_price.
  rewrite (filter_cons_True _ a), (filter_cons_True _ b), filter_nil by done.
  rewrite (filter_cons_True _ a), (filter_cons_True _ b), filter_nil by lra.
  rewrite stable_sort_sorted.
  - cbn [adjacent_pairs]. rewrite filter_cons_True, filter_nil; [done |].
    unfold within_width. cbn. lra.
  - apply SSorted_cons; [apply SSorted_cons; constructor |].
    apply Forall_cons. split; [exact Hle | constructor].
Qed.

Lemma flat_candidates : candidates flat_options = [flat_candidate].
Proof.
  unfold candidates, flat_options. cbn [options_by_company].
  rewrite bind_one. cbn [expiration_dates snd fst current_stock_price].
  rewrite bind_one. cbn [contracts snd].
  rewrite (spread_pairs_two 100 free_short free_long);
    [| reflexivity | reflexivity | cbn; lra | cbn; lra | cbn; lra].
  reflexivity.
Qed.

(** X24: when the implied volatilities of the two legs do not add up to a
    positive number (a risk dataset that reports 0, say), the probability of
    profit of an accepted spread is exactly 100: the short strike is above
    the spot and [probability_otm] answers by moneyness alone. *)
Theorem nonpositive_volatility_gives_full_probability
    (options_data : OptionsData) (risk_data : RiskData) (price_data : PriceData)
    (c : Candidate) (s : Spread) (short_greek_data long_greek_data : GreekRow) :
  c ∈ candidates options_data →
  verdict risk_data price_data c = Accepted s →
  make_greek_lookup risk_data !! streamer_symbol (short_call c)
  = Some short_greek_data →
  make_greek_lookup risk_data !! streamer_symbol (long_call c)
  = Some long_greek_data →
  implied_volatility short_greek_data + implied_volatility long_greek_data <= 0 →
  probability_of_profit s = 100.
Proof.
  intros Hin Hc Hsg Hlg Hiv.
  apply elem_of_candidates in Hin
    as (entry & expiration & _ & _ & Hpair & _ & Hsp).
  rewrite <- Hsp in Hpair.
  apply elem_of_spread_pairs in Hpair as (_ & _ & Habove & _ & _).
  unfold verdict in Hc.
  destruct (examine_pair_accepted_lookups _ _ _ _ _ _ _
              ltac:(rewrite Hc; discriminate))
    as (sp & lp & sg & lg & H1 & H2 & H3 & H4).
  destruct (examine_pair_accepted _ _ _ _ _ _ _ _ _ _ _ H1 H2 H3 H4 s Hc)
    as ((HT & _) & (Hpop & _) & _).
  rewrite Hsg in H3. rewrite Hlg in H4.
  injection H3 as <-. injection H4 as <-.
  rewrite Hpop. unfold probability_otm.
  rewrite (decide_False (P := _ / 365 <= 0)) by lra.
  rewrite (decide_True (P := _ / 2 <= 0)) by lra.
  unfold moneyness_otm. rewrite decide_True; [lra |]. left. done.
Qed.

Lemma nonpositive_volatility_gives_full_probability_witness :
  ∃ s, verdict flat_risk flat_prices flat_candidate = Accepted s
       ∧ probability_of_profit s = 100.
Proof.
  assert (Hlookups :
    make_price_lookup flat_prices !! streamer_symbol free_short
    = Some {| price_contract_name := "XYZ_C105";
              what_buyers_pay := 1.5; what_sellers_want := 1.6 |}
    ∧ make_price_lookup flat_prices !! streamer_symbol free_long
      = Some {| price_contract_name := "XYZ_C110";
                what_buyers_pay := 0.4; what_sellers_want := 0.5 |}
    ∧ make_greek_lookup flat_risk !! streamer_symbol free_short
      = Some {| greek_contract_name := "XYZ_C105"; implied_volatility := 0 |}
    ∧ make_greek_lookup flat_risk !! streamer_symbol free_long
      = Some {| greek_contract_name := "XYZ_C110"; implied_volatility := 0 |})
    by (repeat split; reflexivity).
  destruct Hlookups as (H1 & H2 & H3 & H4).
  destruct (examine_pair_accepts default_calculator
              (make_greek_lookup flat_risk) (make_price_lookup flat_prices)
              "XYZ" 100 free_short free_long _ _ _ _ H1 H2 H3 H4)
    as (s & Hs & _).
  - cbn. lra.
  - cbn. lra.
  - cbn. lra.
  - cbn. lra.
  - cbn. lra.
  - cbn. lra.
  - cbn. unfold probability_otm.
    rewrite (decide_False (P := _ / 365 <= 0)) by lra.
    rewrite (decide_True (P := _ / 2 <= 0)) by lra.
    unfold moneyness_otm. rewrite decide_True; [lra | left; split; [done | lra]].
  - exists s. split; [exact Hs |].
    eapply (nonpositive_volatility_gives_full_probability flat_options
              flat_risk flat_prices flat_candidate s);
      [rewrite flat_candidates; by left | exact Hs | exact H3 | exact H4 |].
    cbn. lra.
Defined.
